(** * job_board.models: the posting lifecycle and the site-provisioning hook

    A shallow embedding of [src/job_board/models.py].  The three methods of
    [Job] ([activate], [expire], [format_country]) and the [post_save]
    receiver [generate_site_config] are written as programs in a small
    state-and-exception monad, over an explicit picture of what the web
    framework keeps for them: the clock, the two tables they touch, the mail
    transport, and a log of the statements and mails issued. *)

From Stdlib Require Import ZArith Ascii.
From stdpp Require Import gmap strings list.

Local Open Scope string_scope.
Local Open Scope list_scope.
Local Open Scope Z_scope.

(** ** Exceptions and the effect monad

    A Python method may return or raise; what it did to the objects and to
    the database before raising stays done.  So a computation maps a state to
    an outcome {e and} a state, also when the outcome is an exception. *)

Inductive exn : Type :=
| AttributeError (obj attr : string)
| MultipleObjectsReturned
| BadHeaderError
| SMTPException.

Inductive outcome (A : Type) : Type :=
| Return (a : A)
| Raise (e : exn).
Arguments Return {A} a.
Arguments Raise {A} e.

Definition M (S A : Type) : Type := S → outcome A * S.

Definition ret {S A} (a : A) : M S A := λ s, (Return a, s).

Definition raise {S A} (e : exn) : M S A := λ s, (Raise e, s).

Definition bind {S A B} (m : M S A) (k : A → M S B) : M S B :=
  λ s, match m s with
       | (Return a, s') => k a s'
       | (Raise e, s') => (Raise e, s')
       end.

Definition gets {S A} (f : S → A) : M S A := λ s, (Return (f s), s).

Definition modify {S} (f : S → S) : M S unit := λ s, (Return tt, f s).

Declare Scope py_scope.
Delimit Scope py_scope with py.
Notation "'let*' x ':=' c 'in' k" := (bind c (λ x, k))
  (at level 10, x name, c at level 100, k at level 200) : py_scope.
Notation "c ';;' k" := (bind c (λ _, k))
  (at level 100, k at level 200, right associativity) : py_scope.
Local Open Scope py_scope.

(** ** Data model

    One module per model class, so that the fields keep their names.
    Foreign keys to classes the methods never look into ([Category],
    [Company], [User]) are kept as the key alone. *)

Definition Time : Type := Z.

(** [django.contrib.sites.models.Site]: the tenant. *)
Module Site.
Record t : Type := Make { id : Z; domain : string; name : string }.
End Site.

Module Country.
Record t : Type := Make { id : Z; name : string }.
End Country.

Module SiteConfig.
Record t : Type := Make {
  id : Z;
  expire_after : Z;
  admin_email : string;
  site : Z                    (* ForeignKey(Site): the site's key *)
}.

(** Field defaults of the class declaration. *)
Definition default_expire_after : Z := 30.
Definition default_admin_email : string := "admin@site".
End SiteConfig.

(** An instance of [Job] that carries its key and its [created_at] stamp:
    it was stored once; whether a row still has its key is for the world to
    say.  [country] is the nullable foreign key, followed; [site] is the
    related [Site] object as [self.site] yields it. *)
Module Job.
Record t : Type := Make {
  id : Z;
  created_at : Time;
  title : string;
  description : string;
  application_info : string;
  location : string;
  email : string;
  category : Z;
  country : option Country.t;
  company : Z;
  paid_at : option Time;
  expired_at : option Time;
  site : Site.t;
  user : Z
}.

(** What [auto_now_add] does to the instance when its row is inserted. *)
Definition set_created_at (v : Time) (j : t) : t :=
  Make (id j) v (title j) (description j) (application_info j)
       (location j) (email j) (category j) (country j) (company j)
       (paid_at j) (expired_at j) (site j) (user j).

(** [self.paid_at = v] and [self.expired_at = v]. *)
Definition set_paid_at (v : option Time) (j : t) : t :=
  Make (id j) (created_at j) (title j) (description j) (application_info j)
       (location j) (email j) (category j) (country j) (company j)
       v (expired_at j) (site j) (user j).

Definition set_expired_at (v : option Time) (j : t) : t :=
  Make (id j) (created_at j) (title j) (description j) (application_info j)
       (location j) (email j) (category j) (country j) (company j)
       (paid_at j) v (site j) (user j).
End Job.

(** ** The world the methods run in *)

(** A mail as [send_mail] receives it. *)
Record Email : Type := MkEmail {
  subject : string;
  message : string;
  from_email : string;
  recipient_list : list string
}.

(** What leaves the process, in the order it leaves. *)
Inductive Event : Type :=
| QueryFirstSiteConfig (site : Z) (found : option SiteConfig.t)
| SaveJob (row : Job.t)
| InsertSiteConfig (row : SiteConfig.t)
| SendMail (m : Email) (delivered : bool).

Record World : Type := MkWorld {
  clock : Time;                          (* what timezone.now() reads *)
  job_table : gmap Z Job.t;              (* rows of Job, by key *)
  siteconfig_table : list SiteConfig.t;  (* rows of SiteConfig *)
  smtp : Email → bool;                   (* does the transport deliver? *)
  trace : list Event
}.

Definition log (e : Event) (w : World) : World :=
  MkWorld (clock w) (job_table w) (siteconfig_table w) (smtp w) (trace w ++ [e]).

Definition put_job (j : Job.t) (w : World) : World :=
  MkWorld (clock w) (<[Job.id j := j]> (job_table w)) (siteconfig_table w)
          (smtp w) (trace w).

Definition add_siteconfig (sc : SiteConfig.t) (w : World) : World :=
  MkWorld (clock w) (job_table w) (siteconfig_table w ++ [sc]) (smtp w) (trace w).

(** A method call: the instance bound to [self], and the world. *)
Record Frame : Type := MkFrame { self : Job.t; world : World }.

Definition in_world {A} (m : M World A) : M Frame A :=
  λ f, let '(r, w') := m (world f) in (r, MkFrame (self f) w').

Definition setattr (f : Job.t → Job.t) : M Frame unit :=
  modify (λ fr, MkFrame (f (self fr)) (world fr)).

(** ** Framework calls *)

(** [timezone.now()]: an aware datetime, never [None]. *)
Definition timezone_now : M World Time := gets clock.

(** What [save] makes of an instance that carries its key.  When a row has
    that key, the instance as it is (the row will be UPDATEd).  When none
    has, the row will be INSERTed, and before an insert [auto_now_add]
    (models.py 99) stamps [created_at] on the instance. *)
Definition pre_save (w : World) (j : Job.t) : Job.t :=
  match job_table w !! Job.id j with
  | Some _ => j
  | None => Job.set_created_at (clock w) j
  end.

(** [self.save()]: UPDATE the row with the instance's field values, or, when
    no row has the instance's key, stamp and INSERT. *)
Definition save : M Frame unit :=
  let* j := gets self in
  let* row := gets (λ fr, job_table (world fr) !! Job.id j) in
  match row with
  | Some _ => in_world (modify (λ w, log (SaveJob j) (put_job j w)))
  | None =>
      let* now := in_world timezone_now in
      setattr (Job.set_created_at now) ;;
      let* inserted := gets self in
      in_world (modify (λ w, log (SaveJob inserted) (put_job inserted w)))
  end.

(** [QuerySet.first()] on a query set without ordering: ordered by primary
    key, the first row or [None]. *)
Definition lowest_pk (rows : list SiteConfig.t) : option SiteConfig.t :=
  foldr (λ sc best,
           match best with
           | None => Some sc
           | Some b => if decide (SiteConfig.id sc ≤ SiteConfig.id b)
                       then Some sc else Some b
           end) None rows.

Definition siteconfig_set (s : Site.t) (w : World) : list SiteConfig.t :=
  filter (λ sc, SiteConfig.site sc = Site.id s) (siteconfig_table w).

(** [site.siteconfig_set.first()] *)
Definition siteconfig_set_first (s : Site.t) : M World (option SiteConfig.t) :=
  let* found := gets (λ w, lowest_pk (siteconfig_set s w)) in
  modify (log (QueryFirstSiteConfig (Site.id s) found)) ;;
  ret found.

(** [sc.admin_email] where [sc] may be [None]. *)
Definition getattr_admin_email (sc : option SiteConfig.t) : M World string :=
  match sc with
  | Some c => ret (SiteConfig.admin_email c)
  | None => raise (AttributeError "NoneType" "admin_email")
  end.

(** A carriage return or a line feed somewhere in the string. *)
Fixpoint has_line_break (s : string) : bool :=
  match s with
  | EmptyString => false
  | String c rest =>
      Ascii.eqb c "010"%char || Ascii.eqb c "013"%char || has_line_break rest
  end.

(** The check the framework makes on the Subject, From and To headers when
    it builds the message. *)
Definition headers_ok (m : Email) : bool :=
  negb (has_line_break (subject m)
        || has_line_break (from_email m)
        || existsb has_line_break (recipient_list m)).

(** [django.core.mail.send_mail]: returns the number of messages delivered.
    With nobody to send to, nothing is done.  Else the message is built, and
    a line break in the subject, the sender or a recipient is refused with
    [BadHeaderError], whatever [fail_silently] says; then the message is
    handed to the transport, whose failure is raised unless
    [fail_silently]. *)
Definition send_mail (subject message from_email : string)
    (recipient_list : list string) (fail_silently : bool) : M World Z :=
  let m := MkEmail subject message from_email recipient_list in
  match recipient_list with
  | [] => ret 0
  | _ :: _ =>
      if headers_ok m then
        let* delivered := gets (λ w, smtp w m) in
        modify (log (SendMail m delivered)) ;;
        if delivered then ret 1
        else if fail_silently then ret 0
        else raise SMTPException
      else raise BadHeaderError
  end.

(** Python truth value of a [str]. *)
Definition str_truthy (s : string) : bool :=
  match s with EmptyString => false | String _ _ => true end.

(** ['Your %s job has expired' % name] and ['admin@%s' % domain]. *)
Definition expired_subject (name : string) : string :=
  "Your " +:+ name +:+ " job has expired".

Definition admin_at (domain : string) : string := "admin@" +:+ domain.

Section Models.

(** [render_to_string(template_name, {'job': job})].  The template
    [job_board/emails/expired.txt] is a file of the repository that is not
    among its Python sources: its rendering is a parameter. *)
Variable render_to_string : string → Job.t → string.

(** ** Job.activate (models.py 135-141) *)
Definition activate : M Frame bool :=
  let* paid := gets (λ fr, Job.paid_at (self fr)) in
  match paid with
  | None =>
      let* now := in_world timezone_now in
      setattr (Job.set_paid_at (Some now)) ;;
      save ;;
      ret true
  | Some _ => ret false
  end.

(** ** Job.expire (models.py 143-158)

    [context] holds a reference to [self], not a copy: the template is
    rendered from the instance as it is when [render_to_string] runs, after
    the assignment to [expired_at].  The arguments of [send_mail] are
    evaluated left to right, [sc.admin_email] third. *)
Definition expire : M Frame bool :=
  let* j := gets self in
  match Job.paid_at j, Job.expired_at j with
  | Some _, None =>
      let* sc := in_world (siteconfig_set_first (Job.site j)) in
      let* now := in_world timezone_now in
      setattr (Job.set_expired_at (Some now)) ;;
      save ;;
      let* site := gets (λ fr, Job.site (self fr)) in
      let subject := expired_subject (Site.name site) in
      let* context_job := gets self in
      let body := render_to_string "job_board/emails/expired.txt" context_job in
      let* sender := in_world (getattr_admin_email sc) in
      let* to := gets (λ fr, Job.email (self fr)) in
      in_world (send_mail subject body sender [to] true) ;;
      ret true
  | _, _ => ret false
  end.

(** ** Job.format_country (models.py 160-167)

    A model instance is always true; only [None] is false. *)
Definition format_country : M Frame string :=
  let* country := gets (λ fr, Job.country (self fr)) in
  match country with
  | Some c => ret (Country.name c)
  | None =>
      let* location := gets (λ fr, Job.location (self fr)) in
      if str_truthy location then ret "Anywhere*" else ret "Anywhere"
  end.

End Models.

(** ** generate_site_config (models.py 17-24) *)

(** The keyword arguments of a [post_save] signal that the receiver reads;
    either key may be missing from the dictionary. *)
Record kwargs : Type := MkKwargs {
  created : option bool;
  instance : option Site.t
}.

(** The key the database gives the next row. *)
Definition next_pk (rows : list SiteConfig.t) : Z :=
  1 + foldr (λ sc m, Z.max (SiteConfig.id sc) m) 0 rows.

(** [SiteConfig.objects.create(site=site, admin_email=admin_email)]: the
    fields not given take the defaults of the class declaration. *)
Definition SiteConfig_objects_create (site : Site.t) (admin_email : string)
    : M World SiteConfig.t :=
  let* rows := gets siteconfig_table in
  let sc := SiteConfig.Make (next_pk rows) SiteConfig.default_expire_after
                            admin_email (Site.id site) in
  modify (λ w, log (InsertSiteConfig sc) (add_siteconfig sc w)) ;;
  ret sc.

(** The rows [get(site=site, admin_email=admin_email)] selects: both keyword
    arguments are lookup conditions. *)
Definition siteconfig_lookup (site : Site.t) (admin_email : string) (w : World)
    : list SiteConfig.t :=
  filter (λ sc, SiteConfig.site sc = Site.id site
                ∧ SiteConfig.admin_email sc = admin_email)
         (siteconfig_table w).

(** [SiteConfig.objects.get_or_create(site=site, admin_email=admin_email)]:
    the row found and [False], or a new row and [True]; [get] raises when
    more than one row matches. *)
Definition SiteConfig_objects_get_or_create (site : Site.t) (admin_email : string)
    : M World (SiteConfig.t * bool) :=
  let* hits := gets (siteconfig_lookup site admin_email) in
  match hits with
  | [] => let* sc := SiteConfig_objects_create site admin_email in ret (sc, true)
  | [sc] => ret (sc, false)
  | _ :: _ :: _ => raise MultipleObjectsReturned
  end.

(** [kwargs.get('created', True)], then its truth value. *)
Definition get_created (kw : kwargs) : bool := default true (created kw).

(** The receiver; [sender] is not read.  ['admin@%s' % site.domain] is an
    argument of the call, evaluated before it: a missing instance raises. *)
Definition generate_site_config (kw : kwargs) : M World unit :=
  if get_created kw then
    let site := instance kw in
    match site with
    | Some s =>
        SiteConfig_objects_get_or_create s (admin_at (Site.domain s)) ;;
        ret tt
    | None => raise (AttributeError "NoneType" "domain")
    end
  else ret tt.

(** The signal as the framework sends it after the first save of a site. *)
Definition site_added (s : Site.t) : kwargs := MkKwargs (Some true) (Some s).

(** [n] deliveries of the same signal in a row. *)
Fixpoint fire (n : nat) (kw : kwargs) (w : World) : World :=
  match n with
  | O => w
  | S n' => fire n' kw (snd (generate_site_config kw w))
  end.

(** ** The lifecycle as a transition system *)

Inductive call : Type := Activate | Expire.

Definition invoke (render_to_string : string → Job.t → string) (c : call)
    : M Frame bool :=
  match c with
  | Activate => activate
  | Expire => expire render_to_string
  end.

(** One step of a posting's history: a call of either method, whatever it
    returns or raises, or anything else that happens to the world in between
    (the clock moves, the transport goes down, site configurations are
    added, edited or removed). *)
Inductive step (render_to_string : string → Job.t → string)
    : Frame → Frame → Prop :=
| step_call c fr : step render_to_string fr (snd (invoke render_to_string c fr))
| step_world j w w' : step render_to_string (MkFrame j w) (MkFrame j w').


Inductive Phase : Type := Unpaid | Paid | Expired | ExpiredUnpaid.

Definition phase (j : Job.t) : Phase :=
  match Job.paid_at j, Job.expired_at j with
  | None, None => Unpaid
  | Some _, None => Paid
  | Some _, Some _ => Expired
  | None, Some _ => ExpiredUnpaid
  end.

(** The arrows of Unpaid -> Paid -> Expired. *)
Inductive arrow : Phase → Phase → Prop :=
| arrow_pay : arrow Unpaid Paid
| arrow_expire : arrow Paid Expired.

Definition rank (p : Phase) : nat :=
  match p with Unpaid => 0 | Paid => 1 | Expired => 2 | ExpiredUnpaid => 3 end%nat.

(** [expired_at] is not set while [paid_at] is unset. *)
Definition job_inv (j : Job.t) : Prop :=
  is_Some (Job.expired_at j) → is_Some (Job.paid_at j).

(** What a call can have done to the instance and to the table of
    postings. *)
Inductive effect (c : call) (fr fr' : Frame) : Prop :=
| effect_none :
    fr' = fr → effect c fr fr'
| effect_paid :
    c = Activate →
    Job.paid_at (self fr) = None →
    self fr' = pre_save (world fr)
                 (Job.set_paid_at (Some (clock (world fr))) (self fr)) →
    job_table (world fr') = <[Job.id (self fr) := self fr']> (job_table (world fr)) →
    effect c fr fr'
| effect_expired :
    c = Expire →
    is_Some (Job.paid_at (self fr)) →
    Job.expired_at (self fr) = None →
    self fr' = pre_save (world fr)
                 (Job.set_expired_at (Some (clock (world fr))) (self fr)) →
    job_table (world fr') = <[Job.id (self fr) := self fr']> (job_table (world fr)) →
    effect c fr fr'.

(** The events a call added to the log. *)
Definition emitted (before after : Frame) : list Event :=
  drop (length (trace (world before))) (trace (world after)).

Definition mails (evs : list Event) : list Email :=
  omap (λ e, match e with SendMail m _ => Some m | _ => None end) evs.

(** ** The shape of a successful expiry *)

(** The instances [activate] and [expire] leave behind, the mail [expire]
    builds and the world after its row is written and [evs] are logged. *)
Definition paid_self (fr : Frame) : Job.t :=
  pre_save (world fr) (Job.set_paid_at (Some (clock (world fr))) (self fr)).

Definition expired_self (fr : Frame) : Job.t :=
  pre_save (world fr) (Job.set_expired_at (Some (clock (world fr))) (self fr)).

Definition expiry_mail (render : string → Job.t → string) (fr : Frame)
    (sc : SiteConfig.t) : Email :=
  MkEmail (expired_subject (Site.name (Job.site (self fr))))
          (render "job_board/emails/expired.txt" (expired_self fr))
          (SiteConfig.admin_email sc)
          [Job.email (self fr)].

Definition expired_world (fr : Frame) (evs : list Event) : World :=
  MkWorld (clock (world fr))
          (<[Job.id (self fr) := expired_self fr]> (job_table (world fr)))
          (siteconfig_table (world fr)) (smtp (world fr))
          (trace (world fr) ++ evs).

(** ** Sample data *)

Module Sample.
Definition site : Site.t := Site.Make 1 "jobs.example.com" "Example Jobs".
Definition france : Country.t := Country.Make 33 "France".

Definition job : Job.t :=
  Job.Make 7 1000 "Compiler engineer" "Write a compiler." "Mail us."
           "EU timezone" "hr@acme.test" 2 None 3 None None site 4.

Definition paid_job : Job.t := Job.set_paid_at (Some 1500) job.
Definition expired_job : Job.t := Job.set_expired_at (Some 1800) paid_job.

Definition config : SiteConfig.t :=
  SiteConfig.Make 1 30 "admin@jobs.example.com" 1.
Definition edited_config : SiteConfig.t :=
  SiteConfig.Make 1 45 "owner@example.com" 1.

(** A template that prints the title and whether the posting is expired. *)
Definition render (template : string) (j : Job.t) : string :=
  template +:+ ":" +:+ Job.title j +:+
  match Job.expired_at j with Some _ => ":expired" | None => ":live" end.

Definition up (_ : Email) : bool := true.
Definition down (_ : Email) : bool := false.

(** A database without postings: the sites' configurations only. *)
Definition db (rows : list SiteConfig.t) (transport : Email → bool) : World :=
  MkWorld 2000 ∅ rows transport [].

(** A call on a stored posting: the instance, and its row in the table. *)
Definition call_on (j : Job.t) (rows : list SiteConfig.t)
    (transport : Email → bool) : Frame :=
  MkFrame j (MkWorld 2000 {[Job.id j := j]} rows transport []).

Definition fresh_frame : Frame := call_on job [config] up.
Definition paid_frame : Frame := call_on paid_job [config] up.
Definition outage_frame : Frame := call_on paid_job [config] down.
Definition orphan_frame : Frame := call_on paid_job [] up.
Definition expired_frame : Frame := call_on expired_job [config] up.

Definition french_frame : Frame :=
  call_on (Job.Make 8 1000 "Chef" "Cook." "Call us." "" "chef@bistro.test"
                    2 (Some france) 3 None None site 4)
          [config] up.
Definition anywhere_frame : Frame :=
  call_on (Job.Make 9 1000 "Writer" "Write." "Mail us." "" "ed@press.test"
                    2 None 3 None None site 4)
          [config] up.

(** A site whose name runs over two lines, and a paid posting of it. *)
Definition two_line_site : Site.t :=
  Site.Make 1 "jobs.example.com" ("Example" +:+ String "010"%char "Jobs").
Definition two_line_frame : Frame :=
  call_on (Job.Make 7 1000 "Compiler engineer" "Write a compiler." "Mail us."
                    "EU timezone" "hr@acme.test" 2 None 3 (Some 1500) None
                    two_line_site 4)
          [config] up.

End Sample.

(** ** Category and Company, and the listings they derive from the postings *)

(** [Job.objects.all()], evaluated in [w]: the rows of the table.  No
    ordering is declared for [Job], so only membership means anything. *)
Definition job_rows (w : World) : list Job.t := (map_to_list (job_table w)).*2.

Module Category.
Record t : Type := Make { id : Z; name : string; site : Z }.

(** [self.job_set]: the postings whose [category] key is this one's. *)
Definition job_set (c : t) (w : World) : list Job.t :=
  filter (λ j, Job.category j = id c) (job_rows w).

(** [Category.active_jobs] (models.py 41-43): two filters, chained. *)
Definition active_jobs (c : t) (w : World) : list Job.t :=
  filter (λ j, Job.expired_at j = None)
         (filter (λ j, is_Some (Job.paid_at j)) (job_set c w)).
End Category.

Module Company.
Record t : Type := Make {
  id : Z;
  name : string;
  url : string;
  twitter : string;
  country : option Country.t;
  site : Z;
  user : Z
}.

Definition job_set (c : t) (w : World) : list Job.t :=
  filter (λ j, Job.company j = id c) (job_rows w).

(** [Company.active_jobs] (models.py 87-89): one filter, two conditions. *)
Definition active_jobs (c : t) (w : World) : list Job.t :=
  filter (λ j, is_Some (Job.paid_at j) ∧ Job.expired_at j = None) (job_set c w).

(** [Company.paid_jobs] (models.py 91-92) *)
Definition paid_jobs (c : t) (w : World) : list Job.t :=
  filter (λ j, is_Some (Job.paid_at j)) (job_set c w).
End Company.

(** Every row sits under its own primary key. *)
Definition keyed (w : World) : Prop :=
  ∀ k j, job_table w !! k = Some j → Job.id j = k.

(** The instance is what its row says. *)
Definition in_sync (fr : Frame) : Prop :=
  job_table (world fr) !! Job.id (self fr) = Some (self fr).

(** A step of a history in which the rest of the world behaves: between two
    calls the clock does not go back, nobody else rewrites or deletes the
    posting's row, and the log stays what the calls made it. *)
Inductive orderly_step (render_to_string : string → Job.t → string)
    : Frame → Frame → Prop :=
| orderly_call c fr :
    orderly_step render_to_string fr (snd (invoke render_to_string c fr))
| orderly_world j w w' :
    clock w ≤ clock w' →
    job_table w' !! Job.id j = job_table w !! Job.id j →
    trace w' = trace w →
    orderly_step render_to_string (MkFrame j w) (MkFrame j w').

(** The stamps of a posting are in the order of its life, and none is in
    the future. *)
Definition timely (fr : Frame) : Prop :=
  Job.created_at (self fr) ≤ clock (world fr)
  ∧ (∀ p, Job.paid_at (self fr) = Some p →
       Job.created_at (self fr) ≤ p ≤ clock (world fr))
  ∧ (∀ e, Job.expired_at (self fr) = Some e →
       e ≤ clock (world fr) ∧ ∀ p, Job.paid_at (self fr) = Some p → p ≤ e).

(** ** A sample board *)

Module Board.
Definition engineering : Category.t := Category.Make 2 "Engineering" 1.
Definition acme : Company.t :=
  Company.Make 3 "Acme" "https://acme.test" "" None 1 4.

Definition other_job : Job.t :=
  Job.Make 11 900 "Tester" "Test things." "Mail us." "" "qa@acme.test"
           2 None 3 (Some 950) None Sample.site 4.

(** A call on [j], stored next to [other_job]. *)
Definition call_on (j : Job.t) (rows : list SiteConfig.t) : Frame :=
  MkFrame j (MkWorld 2000 (<[Job.id j := j]> {[11 := other_job]}) rows
               Sample.up []).

Definition older_config : SiteConfig.t :=
  SiteConfig.Make 1 45 "owner@example.com" 1.
Definition newer_config : SiteConfig.t :=
  SiteConfig.Make 2 30 "admin@jobs.example.com" 1.
Definition foreign_config : SiteConfig.t :=
  SiteConfig.Make 0 30 "admin@elsewhere.test" 9.

(** The same frame when the clock says [t]. *)
Definition later (t : Time) (fr : Frame) : Frame :=
  MkFrame (self fr)
    (MkWorld t (job_table (world fr)) (siteconfig_table (world fr))
       (smtp (world fr)) (trace (world fr))).

(** Pay at 2000, expire at 2500, then call both methods once more. *)
Definition paid : Frame := snd (activate Sample.fresh_frame).
Definition expired : Frame := snd (expire Sample.render (later 2500 paid)).
Definition called_again : Frame :=
  snd (activate (snd (expire Sample.render (later 3000 expired)))).
End Board.

(** * Properties *)

(** Unfold the monad and the framework calls down to state transformers. *)
Ltac run :=
  unfold activate, expire, format_country, invoke, setattr,
    siteconfig_set_first, getattr_admin_email, send_mail, timezone_now,
    in_world, bind, gets, modify, ret, raise;
  simpl.

(** ** Records and the log *)



Lemma emitted_app (fr fr' : Frame) (evs : list Event) :
  trace (world fr') = trace (world fr) ++ evs → emitted fr fr' = evs.
Proof. unfold emitted. intros ->. by rewrite drop_app_length. Qed.

Lemma emitted_refl (fr : Frame) : emitted fr fr = [].
Proof. apply emitted_app. by rewrite app_nil_r. Qed.

(** ** Saving *)

Lemma pre_save_stored (w : World) (j : Job.t) :
  is_Some (job_table w !! Job.id j) → pre_save w j = j.
Proof. unfold pre_save. by intros [row ->]. Qed.

(** An insert stamps [created_at] and nothing else. *)
Lemma pre_save_fields (w : World) (j : Job.t) :
  Job.id (pre_save w j) = Job.id j
  ∧ Job.paid_at (pre_save w j) = Job.paid_at j
  ∧ Job.expired_at (pre_save w j) = Job.expired_at j
  ∧ Job.site (pre_save w j) = Job.site j
  ∧ Job.email (pre_save w j) = Job.email j
  ∧ Job.category (pre_save w j) = Job.category j
  ∧ Job.company (pre_save w j) = Job.company j.
Proof. unfold pre_save. by destruct (job_table w !! Job.id j). Qed.

Lemma pre_save_paid_at (w : World) (j : Job.t) :
  Job.paid_at (pre_save w j) = Job.paid_at j.
Proof. apply pre_save_fields. Qed.

Lemma pre_save_expired_at (w : World) (j : Job.t) :
  Job.expired_at (pre_save w j) = Job.expired_at j.
Proof. apply pre_save_fields. Qed.

Lemma pre_save_created_at (w : World) (j : Job.t) :
  Job.created_at (pre_save w j)
  = match job_table w !! Job.id j with
    | Some _ => Job.created_at j
    | None => clock w
    end.
Proof. unfold pre_save. by destruct (job_table w !! Job.id j). Qed.

Lemma save_run (fr : Frame) :
  save fr
  = (Return tt,
     MkFrame (pre_save (world fr) (self fr))
       (log (SaveJob (pre_save (world fr) (self fr)))
          (put_job (pre_save (world fr) (self fr)) (world fr)))).
Proof.
  destruct fr as [j w]. unfold save, pre_save; run.
  by destruct (job_table w !! Job.id j).
Qed.

(** ** Headers *)

Lemma has_line_break_app (a b : string) :
  has_line_break (a +:+ b) = has_line_break a || has_line_break b.
Proof.
  induction a as [|c a IH]; simpl; [done|].
  rewrite IH. by rewrite !orb_assoc.
Qed.

Lemma headers_ok_fields (subj body sender to : string) :
  has_line_break subj = false →
  has_line_break sender = false →
  has_line_break to = false →
  headers_ok (MkEmail subj body sender [to]) = true.
Proof. unfold headers_ok; simpl. by intros -> -> ->. Qed.

(** ** The first row of a query set *)

Lemma lowest_pk_None (rows : list SiteConfig.t) :
  lowest_pk rows = None ↔ rows = [].
Proof.
  destruct rows as [|sc rows]; simpl; [done|].
  split; [|done]. by destruct (lowest_pk rows); [case_decide|].
Qed.

Lemma lowest_pk_Some (rows : list SiteConfig.t) (sc : SiteConfig.t) :
  lowest_pk rows = Some sc →
  sc ∈ rows ∧ ∀ x, x ∈ rows → SiteConfig.id sc ≤ SiteConfig.id x.
Proof.
  revert sc. induction rows as [|r rows IH]; intros sc; simpl; [done|].
  destruct (lowest_pk rows) as [b|] eqn:Hb.
  - destruct (IH b eq_refl) as [Hin Hmin].
    case_decide as Hle; intros [= <-].
    + split; [left|]. intros x [->|Hx]%elem_of_cons; [lia|].
      specialize (Hmin x Hx). lia.
    + split; [by right|]. intros x [->|Hx]%elem_of_cons; [lia|by apply Hmin].
  - apply lowest_pk_None in Hb as ->. intros [= <-].
    split; [left|]. by intros x ->%list_elem_of_singleton.
Qed.

(** ** Job.activate *)

(** C2.  On a posting whose [paid_at] is unset, [activate] stamps [paid_at]
    with the current time (a time, hence not null), saves the stamped
    instance (which is then what the row says) and returns [True]; on a
    posting whose [paid_at] is set it returns [False], raises nothing and
    leaves the instance and the world as they were.  In particular a second
    call is such a no-op. *)
Theorem activate_spec (fr : Frame) :
  (Job.paid_at (self fr) = None →
     let j' := pre_save (world fr)
                 (Job.set_paid_at (Some (clock (world fr))) (self fr)) in
     activate fr
       = (Return true, MkFrame j' (log (SaveJob j') (put_job j' (world fr))))
     ∧ Job.paid_at (self (snd (activate fr))) = Some (clock (world fr))
     ∧ job_table (world (snd (activate fr))) !! Job.id (self fr)
         = Some (self (snd (activate fr)))
     ∧ activate (snd (activate fr)) = (Return false, snd (activate fr)))
  ∧ (∀ t, Job.paid_at (self fr) = Some t → activate fr = (Return false, fr)).
Proof.
  destruct fr as [j w]; simpl. split.
  - intros Hp. run. rewrite Hp; simpl. rewrite save_run; simpl.
    destruct (pre_save_fields w (Job.set_paid_at (Some (clock w)) j))
      as (Hid & Hpaid & _); simpl in Hid, Hpaid.
    split_and!; try done.
    + unfold put_job; simpl. rewrite Hid. apply lookup_insert_eq.
    + by rewrite Hpaid.
  - intros t Hp. run. by rewrite Hp.
Qed.

Lemma activate_spec_witness :
  fst (activate Sample.fresh_frame) = Return true
  ∧ Job.paid_at (self (snd (activate Sample.fresh_frame))) = Some 2000
  ∧ job_table (world (snd (activate Sample.fresh_frame))) !! 7
      = Some (Job.set_paid_at (Some 2000) Sample.job)
  ∧ activate Sample.paid_frame = (Return false, Sample.paid_frame).
Proof.
  destruct (activate_spec Sample.fresh_frame) as [Hset _].
  destruct (activate_spec Sample.paid_frame) as [_ Hnoop].
  destruct (Hset eq_refl) as (Hrun & Hpaid & Hrow & _).
  split; [by rewrite Hrun|]. split; [exact Hpaid|]. split; [exact Hrow|].
  exact (Hnoop 1500 eq_refl).
Defined.

(** ** Job.expire: the four ways a call can go *)

Lemma pre_save_log (e : Event) (w : World) (j : Job.t) :
  pre_save (log e w) j = pre_save w j.
Proof. done. Qed.

Lemma expiry_mail_headers (render : string → Job.t → string) (fr : Frame)
    (sc : SiteConfig.t) :
  has_line_break (Site.name (Job.site (self fr))) = false →
  has_line_break (SiteConfig.admin_email sc) = false →
  has_line_break (Job.email (self fr)) = false →
  headers_ok (expiry_mail render fr sc) = true.
Proof.
  intros Hname Hsender Hto. apply headers_ok_fields; try done.
  unfold expired_subject. by rewrite !has_line_break_app, Hname.
Qed.

Lemma expire_sends (render : string → Job.t → string) (fr : Frame)
    (t : Time) (sc : SiteConfig.t) :
  Job.paid_at (self fr) = Some t →
  Job.expired_at (self fr) = None →
  lowest_pk (siteconfig_set (Job.site (self fr)) (world fr)) = Some sc →
  headers_ok (expiry_mail render fr sc) = true →
  expire render fr
    = (Return true,
       MkFrame (expired_self fr)
         (expired_world fr
            [QueryFirstSiteConfig (Site.id (Job.site (self fr))) (Some sc);
             SaveJob (expired_self fr);
             SendMail (expiry_mail render fr sc)
                      (smtp (world fr) (expiry_mail render fr sc))])).
Proof.
  destruct fr as [j w]; simpl. intros Hp He Hsc.
  unfold expiry_mail, expired_world, expired_self; simpl.
  destruct (pre_save_fields w (Job.set_expired_at (Some (clock w)) j))
    as (Hid & _ & _ & Hsite & Hemail & _); simpl in Hid, Hsite, Hemail.
  intros Hok.
  run. rewrite Hp, He; simpl. rewrite Hsc; simpl.
  rewrite save_run; simpl. rewrite pre_save_log, Hsite, Hemail, Hok; simpl.
  unfold log, put_job; simpl. rewrite Hid.
  destruct (smtp w _); simpl; by rewrite <- !app_assoc.
Qed.

Lemma expire_refused (render : string → Job.t → string) (fr : Frame)
    (t : Time) (sc : SiteConfig.t) :
  Job.paid_at (self fr) = Some t →
  Job.expired_at (self fr) = None →
  lowest_pk (siteconfig_set (Job.site (self fr)) (world fr)) = Some sc →
  headers_ok (expiry_mail render fr sc) = false →
  expire render fr
    = (Raise BadHeaderError,
       MkFrame (expired_self fr)
         (expired_world fr
            [QueryFirstSiteConfig (Site.id (Job.site (self fr))) (Some sc);
             SaveJob (expired_self fr)])).
Proof.
  destruct fr as [j w]; simpl. intros Hp He Hsc.
  unfold expiry_mail, expired_world, expired_self; simpl.
  destruct (pre_save_fields w (Job.set_expired_at (Some (clock w)) j))
    as (Hid & _ & _ & Hsite & Hemail & _); simpl in Hid, Hsite, Hemail.
  intros Hok.
  run. rewrite Hp, He; simpl. rewrite Hsc; simpl.
  rewrite save_run; simpl. rewrite pre_save_log, Hsite, Hemail, Hok; simpl.
  unfold log, put_job; simpl. rewrite Hid.
  by rewrite <- !app_assoc.
Qed.

Lemma expire_raises (render : string → Job.t → string) (fr : Frame) (t : Time) :
  Job.paid_at (self fr) = Some t →
  Job.expired_at (self fr) = None →
  lowest_pk (siteconfig_set (Job.site (self fr)) (world fr)) = None →
  expire render fr
    = (Raise (AttributeError "NoneType" "admin_email"),
       MkFrame (expired_self fr)
         (expired_world fr
            [QueryFirstSiteConfig (Site.id (Job.site (self fr))) None;
             SaveJob (expired_self fr)])).
Proof.
  destruct fr as [j w]; simpl. intros Hp He Hsc.
  unfold expired_world, expired_self; simpl.
  destruct (pre_save_fields w (Job.set_expired_at (Some (clock w)) j))
    as (Hid & _); simpl in Hid.
  run. rewrite Hp, He; simpl. rewrite Hsc; simpl.
  rewrite save_run; simpl. rewrite pre_save_log.
  unfold log, put_job; simpl. rewrite Hid.
  by rewrite <- !app_assoc.
Qed.

Lemma expire_noop (render : string → Job.t → string) (fr : Frame) :
  Job.paid_at (self fr) = None ∨ is_Some (Job.expired_at (self fr)) →
  expire render fr = (Return false, fr).
Proof.
  destruct fr as [j w]; simpl. run.
  intros [->|[t ->]]; [done|]. by destruct (Job.paid_at j).
Qed.

Lemma expired_self_fields (fr : Frame) :
  Job.id (expired_self fr) = Job.id (self fr)
  ∧ Job.paid_at (expired_self fr) = Job.paid_at (self fr)
  ∧ Job.expired_at (expired_self fr) = Some (clock (world fr)).
Proof.
  unfold expired_self.
  by destruct (pre_save_fields (world fr)
                 (Job.set_expired_at (Some (clock (world fr))) (self fr)))
    as (-> & -> & -> & _).
Qed.

(** However it ends, a call on a paid, unexpired posting leaves the posting
    expired and saved, and has handed the transport one mail at most. *)
Lemma expire_runs (render : string → Job.t → string) (fr : Frame) (t : Time) :
  Job.paid_at (self fr) = Some t →
  Job.expired_at (self fr) = None →
  ∃ r evs,
    expire render fr = (r, MkFrame (expired_self fr) (expired_world fr evs))
    ∧ r ≠ Return false
    ∧ (length (mails evs) ≤ 1)%nat.
Proof.
  intros Hp He.
  destruct (lowest_pk (siteconfig_set (Job.site (self fr)) (world fr)))
    as [sc|] eqn:Hsc;
    [destruct (headers_ok (expiry_mail render fr sc)) eqn:Hok|].
  - rewrite (expire_sends render fr t sc Hp He Hsc Hok).
    do 2 eexists. split_and!; [done|done|simpl; lia].
  - rewrite (expire_refused render fr t sc Hp He Hsc Hok).
    do 2 eexists. split_and!; [done|done|simpl; lia].
  - rewrite (expire_raises render fr t Hp He Hsc).
    do 2 eexists. split_and!; [done|done|simpl; lia].
Qed.

Lemma emitted_expired_world (fr : Frame) (j : Job.t) (evs : list Event) :
  emitted fr (MkFrame j (expired_world fr evs)) = evs.
Proof. by apply emitted_app. Qed.

(** C1, as amended.  On a posting with [paid_at] set and [expired_at] unset
    whose site has a first SiteConfig [sc], with no line break in the site's
    name, in [sc]'s admin address or in the posting's contact address,
    [expire] looks that config up, then stamps [expired_at] with the current
    time, then saves the posting, then hands the transport exactly one mail,
    from [sc]'s admin address to the posting's contact address; it returns
    [True]. *)
Theorem expire_spec (render : string → Job.t → string) (fr : Frame)
    (t : Time) (sc : SiteConfig.t) :
  Job.paid_at (self fr) = Some t →
  Job.expired_at (self fr) = None →
  lowest_pk (siteconfig_set (Job.site (self fr)) (world fr)) = Some sc →
  has_line_break (Site.name (Job.site (self fr))) = false →
  has_line_break (SiteConfig.admin_email sc) = false →
  has_line_break (Job.email (self fr)) = false →
  let fr' := snd (expire render fr) in
  let m := expiry_mail render fr sc in
  fst (expire render fr) = Return true
  ∧ self fr' = pre_save (world fr)
                 (Job.set_expired_at (Some (clock (world fr))) (self fr))
  ∧ Job.expired_at (self fr') = Some (clock (world fr))
  ∧ job_table (world fr') !! Job.id (self fr) = Some (self fr')
  ∧ emitted fr fr'
      = [QueryFirstSiteConfig (Site.id (Job.site (self fr))) (Some sc);
         SaveJob (self fr');
         SendMail m (smtp (world fr) m)]
  ∧ trace (world fr') = trace (world fr) ++ emitted fr fr'
  ∧ mails (emitted fr fr') = [m]
  ∧ from_email m = SiteConfig.admin_email sc
  ∧ recipient_list m = [Job.email (self fr)]
  ∧ SiteConfig.site sc = Site.id (Job.site (self fr))
  ∧ sc ∈ siteconfig_table (world fr).
Proof.
  intros Hp He Hsc Hname Hsender Hto; simpl.
  rewrite (expire_sends render fr t sc Hp He Hsc
             (expiry_mail_headers render fr sc Hname Hsender Hto)); simpl.
  rewrite emitted_expired_world.
  split_and!; try done.
  - apply expired_self_fields.
  - apply lookup_insert_eq.
  - apply lowest_pk_Some in Hsc as [Hin _].
    by apply list_elem_of_filter in Hin as [? _].
  - apply lowest_pk_Some in Hsc as [Hin _].
    by apply list_elem_of_filter in Hin as [_ ?].
Qed.

Lemma expire_spec_witness :
  fst (expire Sample.render Sample.paid_frame) = Return true
  ∧ mails (emitted Sample.paid_frame (snd (expire Sample.render Sample.paid_frame)))
      = [MkEmail "Your Example Jobs job has expired"
                 "job_board/emails/expired.txt:Compiler engineer:expired"
                 "admin@jobs.example.com" ["hr@acme.test"]].
Proof.
  destruct (expire_spec Sample.render Sample.paid_frame 1500 Sample.config
              eq_refl eq_refl eq_refl eq_refl eq_refl eq_refl)
    as (Hret & _ & _ & _ & _ & _ & Hmails & _).
  split; [exact Hret | exact Hmails].
Defined.

(** C1, as stated, fails three times.  On a paid posting whose site has no
    SiteConfig, [expire] raises instead of returning [True] and hands the
    transport nothing; where a config exists, the first thing [expire] does
    is the lookup, ahead of the write it is claimed to follow; and where the
    site's name has a line break in it, the mail is refused when it is built:
    [expire] raises, the posting already expired and saved, and hands the
    transport nothing. *)
Lemma expire_claimed_order_counterexample :
  (Job.paid_at (self Sample.orphan_frame) = Some 1500
   ∧ Job.expired_at (self Sample.orphan_frame) = None
   ∧ fst (expire Sample.render Sample.orphan_frame)
       = Raise (AttributeError "NoneType" "admin_email")
   ∧ fst (expire Sample.render Sample.orphan_frame) ≠ Return true
   ∧ mails (emitted Sample.orphan_frame
              (snd (expire Sample.render Sample.orphan_frame))) = [])
  ∧ (Job.paid_at (self Sample.paid_frame) = Some 1500
     ∧ Job.expired_at (self Sample.paid_frame) = None
     ∧ emitted Sample.paid_frame (snd (expire Sample.render Sample.paid_frame))
         !! 0%nat
       = Some (QueryFirstSiteConfig 1 (Some Sample.config))
     ∧ emitted Sample.paid_frame (snd (expire Sample.render Sample.paid_frame))
         !! 1%nat
       = Some (SaveJob (Job.set_expired_at (Some 2000) Sample.paid_job)))
  ∧ (Job.paid_at (self Sample.two_line_frame) = Some 1500
     ∧ Job.expired_at (self Sample.two_line_frame) = None
     ∧ lowest_pk (siteconfig_set (Job.site (self Sample.two_line_frame))
                    (world Sample.two_line_frame)) = Some Sample.config
     ∧ fst (expire Sample.render Sample.two_line_frame) = Raise BadHeaderError
     ∧ Job.expired_at (self (snd (expire Sample.render Sample.two_line_frame)))
         = Some 2000
     ∧ mails (emitted Sample.two_line_frame
                (snd (expire Sample.render Sample.two_line_frame))) = []).
Proof. by repeat split. Qed.

(** C3.  On a posting whose [paid_at] is unset, [expire] returns [False],
    leaves the instance and the world as they were (so [paid_at] stays null,
    and [expired_at] too on every posting that respects the data model) and
    hands the transport nothing; likewise on a posting whose [expired_at] is
    set.  A call that follows a call that did expire the posting (and
    returned or raised) is such a no-op. *)
Theorem expire_noop_spec (render : string → Job.t → string) (fr : Frame) :
  (Job.paid_at (self fr) = None →
     expire render fr = (Return false, fr)
     ∧ Job.paid_at (self (snd (expire render fr))) = None
     ∧ Job.expired_at (self (snd (expire render fr))) = Job.expired_at (self fr)
     ∧ (job_inv (self fr) → Job.expired_at (self (snd (expire render fr))) = None)
     ∧ mails (emitted fr (snd (expire render fr))) = [])
  ∧ (∀ t, Job.expired_at (self fr) = Some t →
       expire render fr = (Return false, fr)
       ∧ mails (emitted fr (snd (expire render fr))) = [])
  ∧ (∀ t, Job.paid_at (self fr) = Some t → Job.expired_at (self fr) = None →
       let fr' := snd (expire render fr) in
       expire render fr' = (Return false, fr')
       ∧ mails (emitted fr' (snd (expire render fr'))) = []).
Proof.
  split; [|split].
  - intros Hp. rewrite expire_noop by by left. simpl.
    rewrite emitted_refl. repeat split; try done.
    intros Hinv. destruct (Job.expired_at (self fr)) as [t|] eqn:He; [|done].
    destruct Hinv as [p Hp']; [by eexists|congruence].
  - intros t He. rewrite expire_noop by (right; by eexists). simpl.
    by rewrite emitted_refl.
  - intros t Hp He fr'.
    assert (is_Some (Job.expired_at (self fr'))) as Hset.
    { subst fr'.
      destruct (expire_runs render fr t Hp He) as (r & evs & -> & _); simpl.
      destruct (expired_self_fields fr) as (_ & _ & ->). by eexists. }
    rewrite expire_noop by by right. simpl. by rewrite emitted_refl.
Qed.

Lemma expire_noop_spec_witness :
  expire Sample.render Sample.fresh_frame = (Return false, Sample.fresh_frame)
  ∧ Job.expired_at (self (snd (expire Sample.render Sample.fresh_frame))) = None
  ∧ expire Sample.render Sample.expired_frame = (Return false, Sample.expired_frame)
  ∧ fst (expire Sample.render (snd (expire Sample.render Sample.paid_frame)))
      = Return false.
Proof.
  destruct (expire_noop_spec Sample.render Sample.fresh_frame) as (Hunpaid & _ & _).
  destruct (expire_noop_spec Sample.render Sample.expired_frame) as (_ & Hexpired & _).
  destruct (expire_noop_spec Sample.render Sample.paid_frame) as (_ & _ & Hagain).
  destruct (Hunpaid eq_refl) as (Hrun & _ & _ & Hnull & _).
  split; [exact Hrun|]. split.
  { apply Hnull. intros [t Ht]. discriminate Ht. }
  split; [exact (proj1 (Hexpired 1800 eq_refl))|].
  destruct (Hagain 1500 eq_refl eq_refl) as [Hsecond _].
  by rewrite Hsecond.
Defined.

(** C9.  On a posting with [paid_at] set and [expired_at] unset whose site
    has no SiteConfig, [expire] raises out of [sc.admin_email] (an
    [AttributeError] on [None]) instead of returning; by then [expired_at] is
    stamped and the row rewritten, and both stay so: the lookup and the write
    are all that was issued, and no mail. *)
Theorem expire_without_config (render : string → Job.t → string) (fr : Frame)
    (t : Time) :
  Job.paid_at (self fr) = Some t →
  Job.expired_at (self fr) = None →
  siteconfig_set (Job.site (self fr)) (world fr) = [] →
  let fr' := snd (expire render fr) in
  fst (expire render fr) = Raise (AttributeError "NoneType" "admin_email")
  ∧ self fr' = pre_save (world fr)
                 (Job.set_expired_at (Some (clock (world fr))) (self fr))
  ∧ Job.expired_at (self fr') = Some (clock (world fr))
  ∧ job_table (world fr') !! Job.id (self fr) = Some (self fr')
  ∧ emitted fr fr'
      = [QueryFirstSiteConfig (Site.id (Job.site (self fr))) None;
         SaveJob (self fr')]
  ∧ mails (emitted fr fr') = [].
Proof.
  intros Hp He Hnone; simpl.
  apply lowest_pk_None in Hnone.
  rewrite (expire_raises render fr t Hp He Hnone); simpl.
  rewrite emitted_expired_world.
  split_and!; try done.
  - apply expired_self_fields.
  - apply lookup_insert_eq.
Qed.

Lemma expire_without_config_witness :
  fst (expire Sample.render Sample.orphan_frame)
    = Raise (AttributeError "NoneType" "admin_email")
  ∧ job_table (world (snd (expire Sample.render Sample.orphan_frame))) !! 7
      = Some (Job.set_expired_at (Some 2000) Sample.paid_job).
Proof.
  destruct (expire_without_config Sample.render Sample.orphan_frame 1500
              eq_refl eq_refl eq_refl)
    as (Hraise & Hself & _ & Hrow & _).
  split; [exact Hraise|]. rewrite Hself in Hrow. exact Hrow.
Defined.

(** C8.  Whatever mail a call of [expire] hands the transport, its subject
    is "Your <site name> job has expired", its body is the template rendered
    from the posting (as the call leaves it), its sender is the admin address
    of the first SiteConfig of the posting's site and its only recipient is
    the posting's contact address; and the call returned [True] whether the
    transport delivered it or not. *)
Theorem expire_mail_spec (render : string → Job.t → string) (fr : Frame)
    (m : Email) (delivered : bool) :
  SendMail m delivered ∈ emitted fr (snd (expire render fr)) →
  ∃ sc,
    lowest_pk (siteconfig_set (Job.site (self fr)) (world fr)) = Some sc
    ∧ subject m = "Your " +:+ Site.name (Job.site (self fr)) +:+ " job has expired"
    ∧ message m
        = render "job_board/emails/expired.txt" (self (snd (expire render fr)))
    ∧ from_email m = SiteConfig.admin_email sc
    ∧ recipient_list m = [Job.email (self fr)]
    ∧ delivered = smtp (world fr) m
    ∧ fst (expire render fr) = Return true.
Proof.
  destruct (Job.paid_at (self fr)) as [t|] eqn:Hp;
    [destruct (Job.expired_at (self fr)) as [e|] eqn:He|].
  - rewrite expire_noop by (right; by eexists). simpl.
    rewrite emitted_refl. by intros ?%elem_of_nil.
  - destruct (lowest_pk (siteconfig_set (Job.site (self fr)) (world fr)))
      as [sc|] eqn:Hsc;
      [destruct (headers_ok (expiry_mail render fr sc)) eqn:Hok|].
    + rewrite (expire_sends render fr t sc Hp He Hsc Hok); simpl.
      rewrite emitted_expired_world. intros Hin.
      repeat (apply elem_of_cons in Hin as [Hin|Hin]; [try discriminate Hin|]).
      * injection Hin as -> ->. by exists sc.
      * by apply elem_of_nil in Hin.
    + rewrite (expire_refused render fr t sc Hp He Hsc Hok); simpl.
      rewrite emitted_expired_world. intros Hin.
      repeat (apply elem_of_cons in Hin as [Hin|Hin]; [try discriminate Hin|]).
      by apply elem_of_nil in Hin.
    + rewrite (expire_raises render fr t Hp He Hsc); simpl.
      rewrite emitted_expired_world. intros Hin.
      repeat (apply elem_of_cons in Hin as [Hin|Hin]; [try discriminate Hin|]).
      by apply elem_of_nil in Hin.
  - rewrite expire_noop by by left. simpl.
    rewrite emitted_refl. by intros ?%elem_of_nil.
Qed.

(** With the transport down, the mail is attempted, not delivered, and the
    caller still gets [True]. *)
Lemma expire_mail_spec_witness :
  smtp (world Sample.outage_frame)
       (expiry_mail Sample.render Sample.outage_frame Sample.config) = false
  ∧ subject (expiry_mail Sample.render Sample.outage_frame Sample.config)
      = "Your Example Jobs job has expired"
  ∧ fst (expire Sample.render Sample.outage_frame) = Return true.
Proof.
  destruct (expire_mail_spec Sample.render Sample.outage_frame
              (expiry_mail Sample.render Sample.outage_frame Sample.config) false)
    as (sc & _ & Hsubject & _ & _ & _ & Hdown & Hret).
  { apply list_elem_of_lookup. exists 2%nat. reflexivity. }
  split; [by rewrite <- Hdown|]. split; [exact Hsubject | exact Hret].
Defined.

(** [fail_silently] is what keeps a failed delivery from the caller: the
    same call without it raises. *)
Lemma send_mail_loud (subj body sender to : string) (rest : list string)
    (w : World) :
  headers_ok (MkEmail subj body sender (to :: rest)) = true →
  smtp w (MkEmail subj body sender (to :: rest)) = false →
  fst (send_mail subj body sender (to :: rest) false w) = Raise SMTPException
  ∧ fst (send_mail subj body sender (to :: rest) true w) = Return 0.
Proof. intros Hok Hdown. unfold send_mail; run. by rewrite Hok, Hdown. Qed.

(** ** Job.format_country *)

(** C7.  [format_country] changes neither the instance nor the world, its
    result depends on the instance alone, and it returns the country's name
    when a country is set, else "Anywhere*" when the location is not the
    empty string, else "Anywhere". *)
Theorem format_country_spec (fr : Frame) :
  snd (format_country fr) = fr
  ∧ (∀ w, fst (format_country (MkFrame (self fr) w)) = fst (format_country fr))
  ∧ (∀ c, Job.country (self fr) = Some c →
       fst (format_country fr) = Return (Country.name c))
  ∧ (Job.country (self fr) = None → Job.location (self fr) ≠ "" →
       fst (format_country fr) = Return "Anywhere*")
  ∧ (Job.country (self fr) = None → Job.location (self fr) = "" →
       fst (format_country fr) = Return "Anywhere").
Proof.
  destruct fr as [j w]; run.
  destruct (Job.country j) as [c|]; simpl.
  - repeat split; try done. by intros ? [= <-].
  - destruct (Job.location j); simpl; repeat split; done.
Qed.

Lemma format_country_spec_witness :
  fst (format_country Sample.french_frame) = Return "France"
  ∧ fst (format_country Sample.fresh_frame) = Return "Anywhere*"
  ∧ fst (format_country Sample.anywhere_frame) = Return "Anywhere".
Proof.
  destruct (format_country_spec Sample.french_frame) as (_ & _ & Hname & _).
  destruct (format_country_spec Sample.fresh_frame) as (_ & _ & _ & Hstar & _).
  destruct (format_country_spec Sample.anywhere_frame) as (_ & _ & _ & _ & Hplain).
  split; [exact (Hname Sample.france eq_refl)|].
  split; [apply (Hstar eq_refl); discriminate|].
  exact (Hplain eq_refl eq_refl).
Defined.

(** ** generate_site_config *)

Lemma lookup_within_set (s : Site.t) (a : string) (w : World) (sc : SiteConfig.t) :
  sc ∈ siteconfig_lookup s a w → sc ∈ siteconfig_set s w.
Proof.
  unfold siteconfig_lookup, siteconfig_set.
  rewrite !list_elem_of_filter. by intros [[Hsite _] Hin].
Qed.

Lemma lookup_nil_of_set_nil (s : Site.t) (a : string) (w : World) :
  siteconfig_set s w = [] → siteconfig_lookup s a w = [].
Proof.
  intros Hset. destruct (siteconfig_lookup s a w) as [|sc l] eqn:Hl; [done|].
  assert (sc ∈ siteconfig_set s w) as Hin.
  { apply (lookup_within_set s a). rewrite Hl. left. }
  rewrite Hset in Hin. by apply elem_of_nil in Hin.
Qed.

Lemma next_pk_above (rows : list SiteConfig.t) (sc : SiteConfig.t) :
  sc ∈ rows → SiteConfig.id sc < next_pk rows.
Proof.
  unfold next_pk. induction rows as [|r rows IH]; simpl.
  - by intros ?%elem_of_nil.
  - intros [->|Hin]%elem_of_cons; [lia|]. specialize (IH Hin). lia.
Qed.

(** What a delivery of the signal does, by what the lookup finds. *)
Lemma generate_site_config_inserts (s : Site.t) (kw : kwargs) (w : World) :
  instance kw = Some s → get_created kw = true →
  siteconfig_lookup s (admin_at (Site.domain s)) w = [] →
  let sc := SiteConfig.Make (next_pk (siteconfig_table w))
              SiteConfig.default_expire_after (admin_at (Site.domain s))
              (Site.id s) in
  generate_site_config kw w
    = (Return tt, log (InsertSiteConfig sc) (add_siteconfig sc w)).
Proof.
  intros Hi Hc Hl; simpl.
  unfold generate_site_config. rewrite Hc, Hi.
  unfold SiteConfig_objects_get_or_create, SiteConfig_objects_create; run.
  by rewrite Hl.
Qed.

Lemma generate_site_config_keeps (s : Site.t) (kw : kwargs) (w : World) :
  instance kw = Some s →
  siteconfig_lookup s (admin_at (Site.domain s)) w ≠ [] →
  snd (generate_site_config kw w) = w.
Proof.
  intros Hi Hl. unfold generate_site_config.
  destruct (get_created kw); [|done]. rewrite Hi.
  unfold SiteConfig_objects_get_or_create; run.
  by destruct (siteconfig_lookup _ _ w) as [|? [|? ?]].
Qed.

Lemma generate_site_config_stable (kw : kwargs) (w : World) :
  let w1 := snd (generate_site_config kw w) in
  snd (generate_site_config kw w1) = w1.
Proof.
  simpl. destruct (instance kw) as [s|] eqn:Hi;
    [destruct (get_created kw) eqn:Hc|].
  - destruct (siteconfig_lookup s (admin_at (Site.domain s)) w) as [|x l] eqn:Hl.
    + rewrite (generate_site_config_inserts s kw w Hi Hc Hl); simpl.
      apply (generate_site_config_keeps s); [done|].
      unfold siteconfig_lookup in *; simpl.
      rewrite filter_app, Hl. by rewrite (filter_singleton_True _ _ []).
    + rewrite (generate_site_config_keeps s kw w Hi) by by rewrite Hl.
      apply (generate_site_config_keeps s); [done|by rewrite Hl].
  - unfold generate_site_config. by rewrite Hc.
  - unfold generate_site_config. destruct (get_created kw); [|done].
    by rewrite Hi.
Qed.

Lemma fire_settles (n : nat) (kw : kwargs) (w : World) :
  fire (S n) kw w = fire 1 kw w.
Proof.
  simpl. induction n as [|n IH]; [done|].
  simpl. by rewrite generate_site_config_stable.
Qed.

(** C5.  When the signal of a newly added site is delivered and the site
    has no SiteConfig, the receiver returns having added exactly one row to
    the table, under a key no row had: the site's only SiteConfig, with
    [admin_email] "admin@" followed by the site's domain and [expire_after]
    at its default, 30. *)
Theorem generate_site_config_spec (s : Site.t) (kw : kwargs) (w : World) :
  instance kw = Some s →
  get_created kw = true →
  siteconfig_set s w = [] →
  let w' := snd (generate_site_config kw w) in
  let sc := SiteConfig.Make (next_pk (siteconfig_table w)) 30
              ("admin@" +:+ Site.domain s) (Site.id s) in
  fst (generate_site_config kw w) = Return tt
  ∧ siteconfig_table w' = siteconfig_table w ++ [sc]
  ∧ siteconfig_set s w' = [sc]
  ∧ trace w' = trace w ++ [InsertSiteConfig sc]
  ∧ (∀ x, x ∈ siteconfig_table w → SiteConfig.id x ≠ SiteConfig.id sc).
Proof.
  intros Hi Hc Hset; simpl.
  rewrite (generate_site_config_inserts s kw w Hi Hc)
    by by apply lookup_nil_of_set_nil.
  simpl. repeat split.
  - unfold siteconfig_set in *; simpl.
    rewrite filter_app, Hset. by rewrite (filter_singleton_True _ _ []).
  - intros x Hx%next_pk_above; simpl. lia.
Qed.

Lemma generate_site_config_spec_witness :
  siteconfig_table
    (snd (generate_site_config (site_added Sample.site) (Sample.db [] Sample.up)))
  = [SiteConfig.Make 1 30 "admin@jobs.example.com" 1].
Proof.
  destruct (generate_site_config_spec Sample.site (site_added Sample.site)
              (Sample.db [] Sample.up) eq_refl eq_refl eq_refl)
    as (_ & Htable & _).
  exact Htable.
Defined.

(** C6, as stated, fails: the site below has a SiteConfig, whose address an
    administrator has edited; the receiver does not find it and adds a
    second one. *)
Lemma generate_site_config_duplicates :
  siteconfig_set Sample.site (Sample.db [Sample.edited_config] Sample.up)
    = [Sample.edited_config]
  ∧ fst (generate_site_config (site_added Sample.site)
           (Sample.db [Sample.edited_config] Sample.up)) = Return tt
  ∧ siteconfig_set Sample.site
      (snd (generate_site_config (site_added Sample.site)
              (Sample.db [Sample.edited_config] Sample.up)))
    = [Sample.edited_config; SiteConfig.Make 2 30 "admin@jobs.example.com" 1].
Proof. by repeat split. Qed.

(** C6, as amended.  The receiver adds no row when the table has a
    SiteConfig of this site with the address "admin@" + domain, or when the
    signal says the site was not created; it adds one whenever the table has
    no such row, whatever other SiteConfig the site has; delivering the same
    signal again, any number of times in a row, changes nothing after the
    first delivery; and a site that had no SiteConfig has exactly one after
    any number of deliveries. *)
Theorem generate_site_config_idempotent (s : Site.t) (kw : kwargs) (w : World)
    (n : nat) :
  (instance kw = Some s →
     siteconfig_lookup s (admin_at (Site.domain s)) w ≠ [] →
     snd (generate_site_config kw w) = w)
  ∧ (get_created kw = false → generate_site_config kw w = (Return tt, w))
  ∧ (instance kw = Some s → get_created kw = true →
       siteconfig_lookup s (admin_at (Site.domain s)) w = [] →
       siteconfig_table (snd (generate_site_config kw w))
         = siteconfig_table w
           ++ [SiteConfig.Make (next_pk (siteconfig_table w)) 30
                 (admin_at (Site.domain s)) (Site.id s)])
  ∧ fire (S n) kw w = fire 1 kw w
  ∧ (instance kw = Some s → get_created kw = true → siteconfig_set s w = [] →
       siteconfig_set s (fire (S n) kw w)
         = [SiteConfig.Make (next_pk (siteconfig_table w)) 30
              (admin_at (Site.domain s)) (Site.id s)]).
Proof.
  split; [|split; [|split; [|split]]].
  - apply generate_site_config_keeps.
  - intros Hc. unfold generate_site_config. by rewrite Hc.
  - intros Hi Hc Hl. by rewrite (generate_site_config_inserts s kw w Hi Hc Hl).
  - apply fire_settles.
  - intros Hi Hc Hset. rewrite fire_settles; simpl.
    rewrite (generate_site_config_inserts s kw w Hi Hc)
      by by apply lookup_nil_of_set_nil.
    unfold siteconfig_set in *; simpl.
    rewrite filter_app, Hset. by rewrite (filter_singleton_True _ _ []).
Qed.

Lemma generate_site_config_idempotent_witness :
  snd (generate_site_config (site_added Sample.site)
         (Sample.db [Sample.config] Sample.up))
    = Sample.db [Sample.config] Sample.up
  ∧ siteconfig_set Sample.site
      (fire 3 (site_added Sample.site) (Sample.db [] Sample.up))
    = [Sample.config].
Proof.
  destruct (generate_site_config_idempotent Sample.site (site_added Sample.site)
              (Sample.db [Sample.config] Sample.up) 0) as (Hkeep & _).
  destruct (generate_site_config_idempotent Sample.site (site_added Sample.site)
              (Sample.db [] Sample.up) 2) as (_ & _ & _ & _ & Hone).
  split; [by apply Hkeep|].
  exact (Hone eq_refl eq_refl eq_refl).
Defined.

(** ** The lifecycle *)

Lemma paid_self_fields (fr : Frame) :
  Job.id (paid_self fr) = Job.id (self fr)
  ∧ Job.paid_at (paid_self fr) = Some (clock (world fr))
  ∧ Job.expired_at (paid_self fr) = Job.expired_at (self fr).
Proof.
  unfold paid_self.
  by destruct (pre_save_fields (world fr)
                 (Job.set_paid_at (Some (clock (world fr))) (self fr)))
    as (-> & -> & -> & _).
Qed.

Lemma activate_stamps (fr : Frame) :
  Job.paid_at (self fr) = None →
  activate fr
    = (Return true,
       MkFrame (paid_self fr)
         (log (SaveJob (paid_self fr)) (put_job (paid_self fr) (world fr)))).
Proof.
  destruct fr as [j w]; simpl. intros Hp. run. rewrite Hp; simpl.
  by rewrite save_run.
Qed.

Lemma activate_noop (fr : Frame) :
  is_Some (Job.paid_at (self fr)) → activate fr = (Return false, fr).
Proof. destruct fr as [j w]; simpl. intros [t Hp]. run. by rewrite Hp. Qed.

Lemma invoke_effect (render : string → Job.t → string) (c : call) (fr : Frame) :
  effect c fr (snd (invoke render c fr))
  ∧ (fst (invoke render c fr) = Return false → snd (invoke render c fr) = fr).
Proof.
  destruct c; simpl.
  - destruct (Job.paid_at (self fr)) as [t|] eqn:Hp.
    + rewrite activate_noop by by eexists. split; [by apply effect_none|done].
    + rewrite (activate_stamps fr Hp). split; [|done].
      apply effect_paid; try done.
      unfold put_job; simpl. by destruct (paid_self_fields fr) as (-> & _).
  - destruct (Job.paid_at (self fr)) as [t|] eqn:Hp;
      [destruct (Job.expired_at (self fr)) as [e|] eqn:He|].
    + rewrite expire_noop by (right; by eexists).
      split; [by apply effect_none|done].
    + destruct (expire_runs render fr t Hp He) as (r & evs & -> & Hr & _).
      split; [|by intros ?].
      by apply effect_expired.
    + rewrite expire_noop by by left. split; [by apply effect_none|done].
Qed.

Lemma step_self (render : string → Job.t → string) (fr fr' : Frame) :
  step render fr fr' →
  self fr' = self fr
  ∨ (Job.paid_at (self fr) = None
     ∧ ∃ now w, self fr' = pre_save w (Job.set_paid_at (Some now) (self fr)))
  ∨ (is_Some (Job.paid_at (self fr)) ∧ Job.expired_at (self fr) = None
     ∧ ∃ now w, self fr' = pre_save w (Job.set_expired_at (Some now) (self fr))).
Proof.
  intros [c fr1|j w w']; [|by left].
  destruct (invoke_effect render c fr1) as [[->|_ Hp Hself _|_ Hp He Hself _] _].
  - by left.
  - right; left. split; [done|]. by do 2 eexists.
  - right; right. repeat split; try done. by do 2 eexists.
Qed.

Lemma step_keeps (render : string → Job.t → string) (fr fr' : Frame) :
  step render fr fr' →
  (∀ t, Job.paid_at (self fr) = Some t → Job.paid_at (self fr') = Some t)
  ∧ (∀ t, Job.expired_at (self fr) = Some t → Job.expired_at (self fr') = Some t)
  ∧ (job_inv (self fr) → job_inv (self fr'))
  ∧ (job_inv (self fr) →
       phase (self fr') = phase (self fr)
       ∨ arrow (phase (self fr)) (phase (self fr'))).
Proof.
  intros Hstep. unfold job_inv, phase.
  destruct (step_self render fr fr' Hstep)
    as [->|[(Hp & now & w & ->)|([p Hp] & He & now & w & ->)]];
    rewrite ?pre_save_paid_at, ?pre_save_expired_at;
    simpl; rewrite ?Hp, ?He.
  - repeat split; try done. by left.
  - split; [done|]. split; [done|].
    split; [by intros _; eexists|].
    intros Hinv. right.
    destruct (Job.expired_at (self fr)) as [e|]; [|constructor].
    destruct Hinv as [? ?]; [by eexists|done].
  - split; [done|]. split; [done|].
    split; [by intros _; eexists|].
    intros _. right. constructor.
Qed.

Lemma steps_keep (render : string → Job.t → string) (fr fr' : Frame) :
  rtc (step render) fr fr' →
  (∀ t, Job.paid_at (self fr) = Some t → Job.paid_at (self fr') = Some t)
  ∧ (∀ t, Job.expired_at (self fr) = Some t → Job.expired_at (self fr') = Some t)
  ∧ (job_inv (self fr) → job_inv (self fr'))
  ∧ (job_inv (self fr) → (rank (phase (self fr)) ≤ rank (phase (self fr')))%nat).
Proof.
  induction 1 as [fr|fr fr1 fr' Hstep _ (IHp & IHe & IHi & IHr)].
  - repeat split; done.
  - destruct (step_keeps render fr fr1 Hstep) as (Hp & He & Hi & Har).
    repeat split.
    + intros t Ht. by apply IHp, Hp.
    + intros t Ht. by apply IHe, He.
    + intros Hinv. by apply IHi, Hi.
    + intros Hinv. etrans; [|by apply IHr, Hi].
      destruct (Har Hinv) as [->|Harrow]; [done|].
      destruct Harrow; simpl; lia.
Qed.

(** C4.  From a posting with [paid_at] and [expired_at] both unset, along
    every sequence of calls of [activate] and [expire] (returning or raising,
    with anything happening to the world in between): [expired_at] is never
    set while [paid_at] is unset; [paid_at], once set, keeps its value; a
    step either keeps the phase or follows one arrow of
    Unpaid -> Paid -> Expired, and no later state is at an earlier phase.
    Both arrows are taken: by [activate] from Unpaid and by [expire] from
    Paid. *)
Theorem lifecycle_chain (render : string → Job.t → string) (fr0 fr fr' : Frame) :
  Job.paid_at (self fr0) = None →
  Job.expired_at (self fr0) = None →
  rtc (step render) fr0 fr →
  rtc (step render) fr fr' →
  job_inv (self fr)
  ∧ phase (self fr) ≠ ExpiredUnpaid
  ∧ (∀ t, Job.paid_at (self fr) = Some t → Job.paid_at (self fr') = Some t)
  ∧ (rank (phase (self fr)) ≤ rank (phase (self fr')))%nat
  ∧ (∀ fr1, step render fr fr1 →
       phase (self fr1) = phase (self fr)
       ∨ arrow (phase (self fr)) (phase (self fr1)))
  ∧ (phase (self fr) = Unpaid → phase (self (snd (activate fr))) = Paid)
  ∧ (phase (self fr) = Paid → phase (self (snd (expire render fr))) = Expired).
Proof.
  intros Hp0 He0 Hreach Hlater.
  assert (job_inv (self fr0)) as Hinv0.
  { unfold job_inv. rewrite He0. by intros [? ?]. }
  destruct (steps_keep render fr0 fr Hreach) as (_ & _ & Hi & _).
  specialize (Hi Hinv0).
  destruct (steps_keep render fr fr' Hlater) as (Hpaid & _ & _ & Hrank).
  split; [done|]. split.
  { unfold phase. unfold job_inv in Hi.
    destruct (Job.paid_at (self fr)), (Job.expired_at (self fr)); try done.
    destruct Hi as [? ?]; [by eexists|done]. }
  split; [done|]. split; [by apply Hrank|]. split.
  { intros fr1 Hstep. by apply (step_keeps render fr fr1 Hstep). }
  unfold phase. split.
  - destruct (Job.paid_at (self fr)) eqn:Hp, (Job.expired_at (self fr)) eqn:He;
      try done.
    intros _. rewrite (activate_stamps fr Hp); simpl.
    destruct (paid_self_fields fr) as (_ & -> & ->). by rewrite He.
  - destruct (Job.paid_at (self fr)) as [t|] eqn:Hp,
             (Job.expired_at (self fr)) eqn:He; try done.
    intros _.
    destruct (expire_runs render fr t Hp He) as (r & evs & -> & _); simpl.
    destruct (expired_self_fields fr) as (_ & -> & ->). by rewrite Hp.
Qed.

Lemma lifecycle_chain_witness :
  job_inv (self (snd (activate Sample.fresh_frame)))
  ∧ Job.paid_at (self (snd (expire Sample.render (snd (activate Sample.fresh_frame)))))
      = Some 2000
  ∧ phase (self (snd (expire Sample.render (snd (activate Sample.fresh_frame)))))
      = Expired.
Proof.
  destruct (lifecycle_chain Sample.render Sample.fresh_frame
              (snd (activate Sample.fresh_frame))
              (snd (expire Sample.render (snd (activate Sample.fresh_frame))))
              eq_refl eq_refl
              (rtc_once _ _ (step_call Sample.render Activate Sample.fresh_frame))
              (rtc_once _ _ (step_call Sample.render Expire
                               (snd (activate Sample.fresh_frame)))))
    as (Hinv & _ & Hpaid & _ & _ & _ & Harrow).
  split; [exact Hinv|]. split; [exact (Hpaid 2000 eq_refl)|].
  exact (Harrow eq_refl).
Defined.





(** * Beyond the lifecycle methods: listings, histories, provisioning *)

(** ** Listings *)

Lemma elem_of_job_rows (w : World) (j : Job.t) :
  j ∈ job_rows w ↔ ∃ k, job_table w !! k = Some j.
Proof.
  unfold job_rows. rewrite list_elem_of_fmap. split.
  - intros [[k x] [-> Hin]]. exists k. by apply elem_of_map_to_list in Hin.
  - intros [k Hk]. exists (k, j). split; [done|]. by apply elem_of_map_to_list.
Qed.

(** The rows after the row under [k0] is rewritten with [j]. *)
Lemma job_rows_rewritten (w w' : World) (k0 : Z) (j x : Job.t) :
  job_table w' = <[k0 := j]> (job_table w) →
  x ∈ job_rows w' ↔ x = j ∨ ∃ k, k ≠ k0 ∧ job_table w !! k = Some x.
Proof.
  intros Htable. rewrite elem_of_job_rows, Htable. split.
  - intros [k [[_ <-]|[Hk Hx]]%lookup_insert_Some]; [by left|].
    right. by exists k.
  - intros [->|(k & Hk & Hx)].
    + exists k0. apply lookup_insert_eq.
    + exists k. by rewrite lookup_insert_ne.
Qed.

Lemma paid_self_stored (fr : Frame) :
  is_Some (job_table (world fr) !! Job.id (self fr)) →
  paid_self fr = Job.set_paid_at (Some (clock (world fr))) (self fr).
Proof. intros Hrow. by apply pre_save_stored. Qed.

Lemma expired_self_stored (fr : Frame) :
  is_Some (job_table (world fr) !! Job.id (self fr)) →
  expired_self fr = Job.set_expired_at (Some (clock (world fr))) (self fr).
Proof. intros Hrow. by apply pre_save_stored. Qed.

(** Rows other than the one rewritten are listed as before. *)
Lemma job_rows_elsewhere (fr : Frame) (w' : World) (j' x : Job.t) :
  in_sync fr →
  job_table w' = <[Job.id (self fr) := j']> (job_table (world fr)) →
  x ≠ self fr → x ≠ j' →
  x ∈ job_rows w' ↔ x ∈ job_rows (world fr).
Proof.
  intros Hsync Htable Hold Hnew.
  rewrite (job_rows_rewritten (world fr) w' _ j' x Htable), elem_of_job_rows.
  split.
  - intros [->|(k & _ & Hx)]; [done|]. by exists k.
  - intros [k Hx]. right. exists k. split; [|done].
    intros ->. unfold in_sync in Hsync. congruence.
Qed.

(** What every listing of the three is: a selection of the rows by a test
    on the row alone. *)
Lemma listings_follow_rows (w w' : World) (x : Job.t) :
  (x ∈ job_rows w' ↔ x ∈ job_rows w) →
  (∀ c, x ∈ Category.active_jobs c w' ↔ x ∈ Category.active_jobs c w)
  ∧ (∀ co, x ∈ Company.active_jobs co w' ↔ x ∈ Company.active_jobs co w)
  ∧ (∀ co, x ∈ Company.paid_jobs co w' ↔ x ∈ Company.paid_jobs co w).
Proof.
  intros Hrows.
  unfold Category.active_jobs, Category.job_set, Company.active_jobs,
    Company.paid_jobs, Company.job_set.
  split; [|split]; intros ?; by rewrite !list_elem_of_filter, Hrows.
Qed.

(** X1.  The two ways of writing "active" agree: a posting is among the
    active postings of its category (two chained filters) exactly when it is
    among the active postings of its company (one filter, two conditions),
    and that is when it is stored with [paid_at] set and [expired_at]
    unset. *)
Theorem active_jobs_agree (c : Category.t) (co : Company.t) (w : World)
    (j : Job.t) :
  Job.category j = Category.id c →
  Job.company j = Company.id co →
  (j ∈ Category.active_jobs c w ↔ j ∈ Company.active_jobs co w)
  ∧ (j ∈ Category.active_jobs c w
     ↔ (∃ k, job_table w !! k = Some j) ∧ phase j = Paid).
Proof.
  intros Hc Hco.
  unfold Category.active_jobs, Category.job_set, Company.active_jobs,
    Company.job_set, phase.
  rewrite !list_elem_of_filter, elem_of_job_rows.
  destruct (Job.paid_at j) as [p|], (Job.expired_at j) as [e|];
    rewrite ?is_Some_alt; intuition (try done; eauto).
Qed.

Lemma active_jobs_agree_witness :
  Sample.paid_job ∈ Category.active_jobs Board.engineering
                       (world (Board.call_on Sample.paid_job []))
  ↔ Sample.paid_job ∈ Company.active_jobs Board.acme
                         (world (Board.call_on Sample.paid_job [])).
Proof.
  exact (proj1 (active_jobs_agree Board.engineering Board.acme
                  (world (Board.call_on Sample.paid_job [])) Sample.paid_job
                  eq_refl eq_refl)).
Defined.

(** X2.  The paid postings of a company are its active postings together
    with its expired ones, and the two kinds do not overlap; a posting that
    was never paid is in neither listing. *)
Theorem paid_jobs_split (co : Company.t) (w : World) (j : Job.t) :
  (j ∈ Company.paid_jobs co w
   ↔ (j ∈ Company.active_jobs co w
      ∨ (j ∈ Company.job_set co w ∧ phase j = Expired)))
  ∧ (j ∈ Company.active_jobs co w → phase j = Paid)
  ∧ (Job.paid_at j = None →
       (j ∉ Company.paid_jobs co w) ∧ (j ∉ Company.active_jobs co w)).
Proof.
  unfold Company.paid_jobs, Company.active_jobs, phase.
  rewrite !list_elem_of_filter.
  destruct (Job.paid_at j) as [p|], (Job.expired_at j) as [e|];
    rewrite ?is_Some_alt; intuition (try done; eauto).
Qed.

Lemma paid_jobs_split_witness :
  (Sample.job ∉ Company.paid_jobs Board.acme
                  (world (Board.call_on Sample.job [])))
  ∧ (Sample.job ∉ Company.active_jobs Board.acme
                    (world (Board.call_on Sample.job []))).
Proof.
  exact (proj2 (proj2 (paid_jobs_split Board.acme
                         (world (Board.call_on Sample.job [])) Sample.job))
               eq_refl).
Defined.

(** X3.  [activate] publishes: once it has run on a stored posting that was
    neither paid nor expired, the posting is among the active postings of
    its category and of its company and among the company's paid postings,
    where it was not before; and every other row is listed exactly where it
    was. *)
Theorem activate_lists_posting (c : Category.t) (co : Company.t) (fr : Frame) :
  in_sync fr →
  Job.paid_at (self fr) = None →
  Job.expired_at (self fr) = None →
  Job.category (self fr) = Category.id c →
  Job.company (self fr) = Company.id co →
  let fr' := snd (activate fr) in
  (self fr ∉ Company.paid_jobs co (world fr))
  ∧ self fr' ∈ Category.active_jobs c (world fr')
  ∧ self fr' ∈ Company.active_jobs co (world fr')
  ∧ self fr' ∈ Company.paid_jobs co (world fr')
  ∧ (∀ x, x ≠ self fr → x ≠ self fr' →
       (∀ c', x ∈ Category.active_jobs c' (world fr')
              ↔ x ∈ Category.active_jobs c' (world fr))
       ∧ (∀ co', x ∈ Company.active_jobs co' (world fr')
                 ↔ x ∈ Company.active_jobs co' (world fr))
       ∧ (∀ co', x ∈ Company.paid_jobs co' (world fr')
                 ↔ x ∈ Company.paid_jobs co' (world fr))).
Proof.
  intros Hsync Hp He Hc Hco; simpl.
  rewrite (activate_stamps fr Hp); simpl.
  rewrite paid_self_stored by by eexists.
  assert (Job.set_paid_at (Some (clock (world fr))) (self fr)
            ∈ job_rows
                (log (SaveJob (Job.set_paid_at (Some (clock (world fr))) (self fr)))
                   (put_job (Job.set_paid_at (Some (clock (world fr))) (self fr))
                      (world fr)))) as Hin.
  { apply elem_of_job_rows. exists (Job.id (self fr)). apply lookup_insert_eq. }
  unfold Category.active_jobs, Category.job_set, Company.active_jobs,
    Company.paid_jobs, Company.job_set.
  rewrite !list_elem_of_filter.
  split; [rewrite Hp; by intros [[? ?] _]|].
  simpl in *. rewrite He.
  split; [done|]. split; [done|]. split; [done|].
  intros x Hold Hnew.
  by apply listings_follow_rows,
    (job_rows_elsewhere fr _
       (Job.set_paid_at (Some (clock (world fr))) (self fr))).
Qed.

Lemma activate_lists_posting_witness :
  self (snd (activate (Board.call_on Sample.job [])))
    ∈ Category.active_jobs Board.engineering
        (world (snd (activate (Board.call_on Sample.job []))))
  ∧ (Board.other_job
       ∈ Company.active_jobs Board.acme
           (world (snd (activate (Board.call_on Sample.job []))))
     ↔ Board.other_job
         ∈ Company.active_jobs Board.acme (world (Board.call_on Sample.job []))).
Proof.
  destruct (activate_lists_posting Board.engineering Board.acme
              (Board.call_on Sample.job []) eq_refl eq_refl eq_refl eq_refl eq_refl)
    as (_ & Hlisted & _ & _ & Hothers).
  split; [exact Hlisted|].
  refine (proj1 (proj2 (Hothers Board.other_job _ _)) Board.acme); discriminate.
Defined.

(** X4.  [expire] retires: once it has run on a stored posting that was paid
    and not expired, whether it returned or raised for want of a SiteConfig,
    neither the old row nor the new one is among the active postings of any
    category or company; the posting is still among its company's paid
    postings; and every other row is listed exactly where it was. *)
Theorem expire_delists_posting (render : string → Job.t → string)
    (co : Company.t) (fr : Frame) (t : Time) :
  in_sync fr →
  keyed (world fr) →
  Job.paid_at (self fr) = Some t →
  Job.expired_at (self fr) = None →
  Job.company (self fr) = Company.id co →
  let fr' := snd (expire render fr) in
  self fr ∈ Company.active_jobs co (world fr)
  ∧ (∀ c', (self fr ∉ Category.active_jobs c' (world fr'))
           ∧ (self fr' ∉ Category.active_jobs c' (world fr')))
  ∧ (∀ co', (self fr ∉ Company.active_jobs co' (world fr'))
            ∧ (self fr' ∉ Company.active_jobs co' (world fr')))
  ∧ self fr' ∈ Company.paid_jobs co (world fr')
  ∧ (∀ x, x ≠ self fr → x ≠ self fr' →
       (∀ c', x ∈ Category.active_jobs c' (world fr')
              ↔ x ∈ Category.active_jobs c' (world fr))
       ∧ (∀ co', x ∈ Company.active_jobs co' (world fr')
                 ↔ x ∈ Company.active_jobs co' (world fr))
       ∧ (∀ co', x ∈ Company.paid_jobs co' (world fr')
                 ↔ x ∈ Company.paid_jobs co' (world fr))).
Proof.
  intros Hsync Hkeyed Hp He Hco; simpl.
  assert (∃ evs, snd (expire render fr)
                 = MkFrame (expired_self fr) (expired_world fr evs))
    as [evs ->].
  { destruct (expire_runs render fr t Hp He) as (r & evs & -> & _).
    by eexists. }
  simpl.
  assert (expired_self fr
          = Job.set_expired_at (Some (clock (world fr))) (self fr)) as Hself.
  { apply expired_self_stored. by eexists. }
  assert (∀ x, x ∈ job_rows (expired_world fr evs)
               ↔ x = expired_self fr
                 ∨ ∃ k, k ≠ Job.id (self fr) ∧ job_table (world fr) !! k = Some x)
    as Hrows.
  { intros x. by apply job_rows_rewritten. }
  rewrite Hself in *.
  assert (self fr ∉ job_rows (expired_world fr evs)) as Hgone.
  { rewrite Hrows. intros [Heq|(k & Hk & Hx)].
    - apply (f_equal Job.expired_at) in Heq. simpl in Heq. congruence.
    - by apply Hkeyed in Hx. }
  unfold Category.active_jobs, Category.job_set, Company.active_jobs,
    Company.paid_jobs, Company.job_set.
  split; [|split; [|split; [|split]]].
  - rewrite !list_elem_of_filter, elem_of_job_rows, Hp, He.
    repeat split; try done. by exists (Job.id (self fr)).
  - intros c'. rewrite !list_elem_of_filter. split; [tauto|].
    by intros [? _].
  - intros co'. rewrite !list_elem_of_filter. split; [tauto|].
    by intros [[_ ?] _].
  - rewrite !list_elem_of_filter, Hrows; simpl. rewrite Hp.
    repeat split; try done. by left.
  - intros x Hold Hnew.
    apply listings_follow_rows,
      (job_rows_elsewhere fr _
         (Job.set_expired_at (Some (clock (world fr))) (self fr))); try done.
    unfold expired_world; simpl. by rewrite Hself.
Qed.

Lemma expire_delists_posting_witness :
  (Sample.paid_job
     ∉ Company.active_jobs Board.acme
         (world (snd (expire Sample.render (Board.call_on Sample.paid_job [])))))
  ∧ self (snd (expire Sample.render (Board.call_on Sample.paid_job [])))
      ∈ Company.paid_jobs Board.acme
          (world (snd (expire Sample.render (Board.call_on Sample.paid_job [])))).
Proof.
  destruct (expire_delists_posting Sample.render Board.acme
              (Board.call_on Sample.paid_job []) 1500)
    as (_ & _ & Hgone & Hpaid & _); try reflexivity.
  { intros k j Hk.
    change (<[7 := Sample.paid_job]> ({[11 := Board.other_job]} : gmap Z Job.t)
              !! k = Some j) in Hk.
    by apply lookup_insert_Some
      in Hk as [[<- <-]|[_ [<- <-]%lookup_singleton_Some]]. }
  split; [exact (proj1 (Hgone Board.acme)) | exact Hpaid].
Defined.

(** ** Histories *)

(** The three things a call can have done, with the frame it leaves. *)
Lemma invoke_outcome (render : string → Job.t → string) (c : call) (fr : Frame) :
  snd (invoke render c fr) = fr
  ∨ (c = Activate
     ∧ Job.paid_at (self fr) = None
     ∧ snd (invoke render c fr)
       = MkFrame (paid_self fr)
           (log (SaveJob (paid_self fr)) (put_job (paid_self fr) (world fr))))
  ∨ (c = Expire
     ∧ is_Some (Job.paid_at (self fr))
     ∧ Job.expired_at (self fr) = None
     ∧ ∃ evs,
         snd (invoke render c fr)
           = MkFrame (expired_self fr) (expired_world fr evs)
         ∧ (length (mails evs) ≤ 1)%nat).
Proof.
  destruct c; simpl.
  - destruct (Job.paid_at (self fr)) as [t|] eqn:Hp.
    + left. by rewrite activate_noop by by eexists.
    + right; left. by rewrite (activate_stamps fr Hp).
  - destruct (Job.paid_at (self fr)) as [t|] eqn:Hp;
      [destruct (Job.expired_at (self fr)) as [e|] eqn:He|].
    + left. by rewrite expire_noop by (right; by eexists).
    + right; right. split; [done|]. split; [by eexists|]. split; [done|].
      destruct (expire_runs render fr t Hp He) as (r & evs & -> & _ & Hlen).
      by exists evs.
    + left. by rewrite expire_noop by by left.
Qed.

Lemma created_at_saved (w : World) (j : Job.t) :
  Job.created_at j ≤ clock w → Job.created_at (pre_save w j) ≤ clock w.
Proof. rewrite pre_save_created_at. by destruct (job_table w !! Job.id j). Qed.

Lemma orderly_step_keeps (render : string → Job.t → string) (fr fr' : Frame) :
  orderly_step render fr fr' →
  (timely fr ∧ job_inv (self fr)
   ∧ (is_Some (Job.paid_at (self fr)) →
        is_Some (job_table (world fr) !! Job.id (self fr))) →
   timely fr' ∧ job_inv (self fr')
   ∧ (is_Some (Job.paid_at (self fr')) →
        is_Some (job_table (world fr') !! Job.id (self fr'))))
  ∧ (in_sync fr → in_sync fr').
Proof.
  intros [c fr1|j w w' Hclock Hrow Htrace].
  - destruct (invoke_outcome render c fr1)
      as [->|[(_ & Hp & ->)|(_ & [p Hp] & He & evs & -> & _)]]; [done| |].
    + destruct (paid_self_fields fr1) as (Hid & Hpaid & Hexp).
      unfold timely, job_inv, in_sync, put_job; simpl.
      rewrite Hpaid, Hexp.
      split; [|intros _; apply lookup_insert_eq].
      intros ((Hc & _ & _) & Hinv & _).
      assert (Job.expired_at (self fr1) = None) as He.
      { destruct (Job.expired_at (self fr1)); [|done].
        destruct Hinv as [? ?]; [by eexists|congruence]. }
      assert (Job.created_at (paid_self fr1) ≤ clock (world fr1)) as Hc'.
      { by apply created_at_saved. }
      rewrite He.
      split_and!; try done;
        first [ intros ? [= <-]; lia
              | by intros [? ?]
              | intros _; by rewrite lookup_insert_eq ].
    + destruct (expired_self_fields fr1) as (Hid & Hpaid & Hexp).
      unfold timely, job_inv, in_sync; simpl.
      rewrite Hid, Hpaid, Hexp, Hp.
      split; [|intros _; apply lookup_insert_eq].
      intros ((Hc & Hpd & _) & _ & Hrow). specialize (Hpd p eq_refl).
      rewrite expired_self_stored by (apply Hrow; by eexists); simpl.
      split_and!; try done;
        first [ lia
              | intros ? [= <-]; lia
              | intros ? [= <-]; split; [lia|]; intros ? [= <-]; lia
              | by intros _; eexists
              | intros _; by rewrite lookup_insert_eq ].
  - unfold timely, job_inv, in_sync; simpl in *. split.
    + intros ((Hc & Hpaid & Hexp) & Hinv & Hstored).
      split_and!; try done;
        first [ lia
              | intros p Hp; specialize (Hpaid p Hp); lia
              | intros e He; destruct (Hexp e He) as [? ?]; split; [lia|done]
              | intros Hp; rewrite Hrow; by apply Hstored ].
    + intros Hsync. by rewrite Hrow.
Qed.


Lemma sample_history :
  rtc (orderly_step Sample.render) Sample.fresh_frame Board.called_again.
Proof.
  eapply rtc_l; [exact (orderly_call Sample.render Activate Sample.fresh_frame)|].
  eapply rtc_l.
  { exact (orderly_world Sample.render (self Board.paid) (world Board.paid)
             (world (Board.later 2500 Board.paid))
             ltac:(by vm_compute) eq_refl eq_refl). }
  eapply rtc_l;
    [exact (orderly_call Sample.render Expire (Board.later 2500 Board.paid))|].
  eapply rtc_l.
  { exact (orderly_world Sample.render (self Board.expired) (world Board.expired)
             (world (Board.later 3000 Board.expired))
             ltac:(by vm_compute) eq_refl eq_refl). }
  eapply rtc_l;
    [exact (orderly_call Sample.render Expire (Board.later 3000 Board.expired))|].
  apply rtc_once.
  exact (orderly_call Sample.render Activate
           (snd (expire Sample.render (Board.later 3000 Board.expired)))).
Defined.


(** X6.  In such a history the row keeps up with the instance: if the
    posting's row said what the instance says at the start, it does after
    every call, whether the call returned or raised. *)
Theorem row_follows_instance (render : string → Job.t → string) (fr0 fr : Frame) :
  in_sync fr0 →
  rtc (orderly_step render) fr0 fr →
  in_sync fr.
Proof.
  intros Hsync0 Hrun. revert fr Hrun. apply rtc_ind_r; [done|].
  intros fr1 fr2 _ Hstep IH.
  by apply (orderly_step_keeps render fr1 fr2 Hstep).
Qed.

Lemma row_follows_instance_witness :
  job_table (world Board.called_again) !! 7 = Some (self Board.called_again).
Proof.
  exact (row_follows_instance Sample.render Sample.fresh_frame Board.called_again
           eq_refl sample_history).
Defined.

Lemma mails_app (evs evs' : list Event) : mails (evs ++ evs') = mails evs ++ mails evs'.
Proof. unfold mails. apply omap_app. Qed.

Lemma orderly_step_log (render : string → Job.t → string) (fr fr' : Frame) :
  orderly_step render fr fr' →
  ∃ evs,
    trace (world fr') = trace (world fr) ++ evs
    ∧ (length (mails evs) ≤ 1)%nat
    ∧ (is_Some (Job.expired_at (self fr)) → mails evs = [])
    ∧ (Job.expired_at (self fr') = None →
         Job.expired_at (self fr) = None ∧ mails evs = []).
Proof.
  intros [c fr1|j w w' _ _ Htrace].
  - destruct (invoke_outcome render c fr1)
      as [->|[(_ & Hp & ->)|(_ & _ & He & evs & -> & Hlen)]].
    + exists []. rewrite app_nil_r. split_and!; simpl; auto with lia.
    + exists [SaveJob (paid_self fr1)].
      destruct (paid_self_fields fr1) as (_ & _ & Hexp).
      simpl. rewrite Hexp. split_and!; auto with lia.
    + exists evs. destruct (expired_self_fields fr1) as (_ & _ & Hexp).
      simpl. rewrite He, Hexp. split_and!; try done.
  - exists []. simpl. rewrite app_nil_r. split_and!; auto with lia.
Qed.

(** X7.  However often and in whatever order [activate] and [expire] are
    called in such a history, it hands the transport at most one mail, and
    none for as long as the posting is not expired. *)
Theorem one_mail_per_posting (render : string → Job.t → string) (fr0 fr : Frame) :
  rtc (orderly_step render) fr0 fr →
  trace (world fr) = trace (world fr0) ++ emitted fr0 fr
  ∧ (length (mails (emitted fr0 fr)) ≤ 1)%nat
  ∧ (Job.expired_at (self fr) = None → mails (emitted fr0 fr) = []).
Proof.
  intros Hrun.
  assert (∃ evs, trace (world fr) = trace (world fr0) ++ evs
                 ∧ (length (mails evs) ≤ 1)%nat
                 ∧ (Job.expired_at (self fr) = None → mails evs = []))
    as (evs & Htrace & Hlen & Hnone).
  { revert fr Hrun. apply rtc_ind_r.
    - exists []. rewrite app_nil_r. split_and!; simpl; auto with lia.
    - intros fr1 fr2 _ Hstep (evs & Htrace & Hlen & Hnone).
      destruct (orderly_step_log render fr1 fr2 Hstep)
        as (evs' & Htrace' & Hlen' & Hdone & Hopen).
      exists (evs ++ evs'). rewrite Htrace', Htrace, app_assoc, mails_app.
      split; [done|].
      destruct (Job.expired_at (self fr1)) as [e|] eqn:He.
      + rewrite Hdone by by eexists. rewrite app_nil_r.
        split; [done|]. intros He2. by destruct (Hopen He2).
      + rewrite Hnone by done. simpl.
        split; [done|]. intros He2. by destruct (Hopen He2) as [_ ->]. }
  by rewrite (emitted_app fr0 fr evs Htrace).
Qed.

Lemma one_mail_per_posting_witness :
  (length (mails (emitted Sample.fresh_frame Board.called_again)) ≤ 1)%nat.
Proof.
  exact (proj1 (proj2 (one_mail_per_posting Sample.render Sample.fresh_frame
                         Board.called_again sample_history))).
Defined.

(** ** Provisioning *)

(** X8.  How the receiver fails.  When the signal carries no instance (and
    does not say the site was not created) it raises an [AttributeError],
    and when two or more SiteConfigs of the site already have the address
    "admin@" + domain it raises [MultipleObjectsReturned]; either way the
    world is left as it was. *)
Theorem generate_site_config_failures (kw : kwargs) (w : World) :
  (get_created kw = true → instance kw = None →
     generate_site_config kw w = (Raise (AttributeError "NoneType" "domain"), w))
  ∧ (∀ s, get_created kw = true → instance kw = Some s →
       (2 ≤ length (siteconfig_lookup s (admin_at (Site.domain s)) w))%nat →
       generate_site_config kw w = (Raise MultipleObjectsReturned, w)).
Proof.
  unfold generate_site_config. split.
  - by intros -> ->.
  - intros s -> -> Hlen.
    unfold SiteConfig_objects_get_or_create; run.
    destruct (siteconfig_lookup _ _ w) as [|? [|? ?]]; simpl in *; [lia|lia|done].
Qed.

Lemma generate_site_config_failures_witness :
  generate_site_config (MkKwargs None None) (Sample.db [] Sample.up)
    = (Raise (AttributeError "NoneType" "domain"), Sample.db [] Sample.up)
  ∧ fst (generate_site_config (site_added Sample.site)
           (Sample.db [Sample.config; Board.newer_config] Sample.up))
      = Raise MultipleObjectsReturned.
Proof.
  destruct (generate_site_config_failures (MkKwargs None None)
              (Sample.db [] Sample.up)) as [Hmissing _].
  destruct (generate_site_config_failures (site_added Sample.site)
              (Sample.db [Sample.config; Board.newer_config] Sample.up))
    as [_ Hmany].
  split; [exact (Hmissing eq_refl eq_refl)|].
  rewrite (Hmany Sample.site eq_refl eq_refl); [done|].
  apply le_n.
Defined.

(** X9.  What the receiver leaves alone, whatever the signal and whether it
    returns or raises: the postings, the clock and the transport; every
    SiteConfig already there (it adds at most one row, at the end, and that
    row belongs to the signal's site, with the default [expire_after] and
    the "admin@" address); and hence the SiteConfigs of every other site. *)
Theorem generate_site_config_frame (kw : kwargs) (w : World) :
  let w' := snd (generate_site_config kw w) in
  job_table w' = job_table w
  ∧ clock w' = clock w
  ∧ smtp w' = smtp w
  ∧ (∃ added,
       siteconfig_table w' = siteconfig_table w ++ added
       ∧ (length added ≤ 1)%nat
       ∧ ∀ sc, sc ∈ added →
           ∃ s, instance kw = Some s
                ∧ SiteConfig.site sc = Site.id s
                ∧ SiteConfig.admin_email sc = "admin@" +:+ Site.domain s
                ∧ SiteConfig.expire_after sc = 30)
  ∧ (∀ s s', instance kw = Some s → Site.id s' ≠ Site.id s →
       siteconfig_set s' w' = siteconfig_set s' w).
Proof.
  simpl.
  assert (snd (generate_site_config kw w) = w
          ∨ ∃ s, instance kw = Some s
                 ∧ snd (generate_site_config kw w)
                   = log (InsertSiteConfig
                            (SiteConfig.Make (next_pk (siteconfig_table w))
                               SiteConfig.default_expire_after
                               (admin_at (Site.domain s)) (Site.id s)))
                       (add_siteconfig
                          (SiteConfig.Make (next_pk (siteconfig_table w))
                             SiteConfig.default_expire_after
                             (admin_at (Site.domain s)) (Site.id s)) w))
    as [->|(s & Hi & ->)].
  { destruct (get_created kw) eqn:Hc;
      [destruct (instance kw) as [s|] eqn:Hi|].
    - destruct (siteconfig_lookup s (admin_at (Site.domain s)) w) as [|x l] eqn:Hl.
      + right. exists s. split; [done|].
        by rewrite (generate_site_config_inserts s kw w Hi Hc Hl).
      + left. apply (generate_site_config_keeps s); [done|by rewrite Hl].
    - left. unfold generate_site_config. by rewrite Hc, Hi.
    - left. unfold generate_site_config. by rewrite Hc. }
  - split_and!; try done.
    exists []. rewrite app_nil_r. split_and!; [done|simpl; lia|].
    by intros sc ?%elem_of_nil.
  - simpl. split_and!; try done.
    + eexists [_]. split_and!; [done|simpl; lia|].
      intros sc ->%list_elem_of_singleton. by exists s.
    + intros s0 s' Hi' Hne. rewrite Hi in Hi'. injection Hi' as <-.
      unfold siteconfig_set; simpl.
      rewrite filter_app, (filter_singleton_False _ _ []), app_nil_r; [done|].
      simpl. congruence.
Qed.

Lemma generate_site_config_frame_witness :
  siteconfig_set (Site.Make 9 "elsewhere.test" "Elsewhere")
    (snd (generate_site_config (site_added Sample.site)
            (Sample.db [Board.foreign_config] Sample.up)))
  = [Board.foreign_config].
Proof.
  destruct (generate_site_config_frame (site_added Sample.site)
              (Sample.db [Board.foreign_config] Sample.up))
    as (_ & _ & _ & _ & Hothers).
  rewrite (Hothers Sample.site (Site.Make 9 "elsewhere.test" "Elsewhere") eq_refl);
    [reflexivity|discriminate].
Defined.

Lemma lowest_pk_unique (rows : list SiteConfig.t) (sc : SiteConfig.t) :
  sc ∈ rows →
  (∀ x, x ∈ rows → x = sc ∨ SiteConfig.id sc < SiteConfig.id x) →
  lowest_pk rows = Some sc.
Proof.
  intros Hin Hmin.
  destruct (lowest_pk rows) as [b|] eqn:Hb.
  - apply lowest_pk_Some in Hb as [Hb Hle].
    destruct (Hmin b Hb) as [->|Hlt]; [done|].
    specialize (Hle sc Hin). lia.
  - apply lowest_pk_None in Hb. subst rows. by apply elem_of_nil in Hin.
Qed.

(** X10.  Provisioning is what makes [expire] safe: on a paid posting of a
    site that has no SiteConfig, with no line break in the site's name, in
    its domain or in the posting's contact address, once the receiver has run
    for the site, [expire] returns [True] and its one mail comes from
    "admin@" followed by the site's domain. *)
Theorem provisioned_site_expires (render : string → Job.t → string) (fr : Frame)
    (t : Time) :
  Job.paid_at (self fr) = Some t →
  Job.expired_at (self fr) = None →
  siteconfig_set (Job.site (self fr)) (world fr) = [] →
  has_line_break (Site.name (Job.site (self fr))) = false →
  has_line_break (Site.domain (Job.site (self fr))) = false →
  has_line_break (Job.email (self fr)) = false →
  let provisioned :=
    MkFrame (self fr)
      (snd (generate_site_config (site_added (Job.site (self fr))) (world fr))) in
  fst (expire render provisioned) = Return true
  ∧ ∃ m, mails (emitted provisioned (snd (expire render provisioned))) = [m]
         ∧ from_email m = "admin@" +:+ Site.domain (Job.site (self fr))
         ∧ recipient_list m = [Job.email (self fr)].
Proof.
  intros Hp He Hset Hname Hdomain Hto; simpl.
  rewrite (generate_site_config_inserts (Job.site (self fr))
             (site_added (Job.site (self fr))) (world fr)
             eq_refl eq_refl (lookup_nil_of_set_nil _ _ _ Hset)).
  set (sc := SiteConfig.Make _ _ _ _).
  set (fr1 := MkFrame _ _).
  assert (lowest_pk (siteconfig_set (Job.site (self fr1)) (world fr1)) = Some sc)
    as Hsc.
  { unfold siteconfig_set in *; simpl.
    rewrite filter_app, Hset. by rewrite (filter_singleton_True _ _ []). }
  assert (headers_ok (expiry_mail render fr1 sc) = true) as Hok.
  { apply expiry_mail_headers; try done;
      simpl; unfold admin_at; by rewrite has_line_break_app, Hdomain. }
  rewrite (expire_sends render fr1 t sc Hp He Hsc Hok); simpl.
  split; [done|]. rewrite emitted_expired_world. by eexists.
Qed.

Lemma provisioned_site_expires_witness :
  fst (expire Sample.render
         (MkFrame Sample.paid_job
            (snd (generate_site_config (site_added Sample.site)
                    (world Sample.orphan_frame)))))
    = Return true.
Proof.
  exact (proj1 (provisioned_site_expires Sample.render Sample.orphan_frame 1500
                  eq_refl eq_refl eq_refl eq_refl eq_refl eq_refl)).
Defined.

(** X11.  Which SiteConfig signs the mail, when one is sent (no line break
    in the site's name, in the signing address or in the posting's contact
    address): of the SiteConfigs of the posting's own site, the one with the
    lowest primary key, wherever it stands in the table; a SiteConfig of
    another site is never used, whatever its key. *)
Theorem expire_uses_oldest_config (render : string → Job.t → string)
    (fr : Frame) (t : Time) (sc : SiteConfig.t) :
  Job.paid_at (self fr) = Some t →
  Job.expired_at (self fr) = None →
  sc ∈ siteconfig_table (world fr) →
  SiteConfig.site sc = Site.id (Job.site (self fr)) →
  (∀ x, x ∈ siteconfig_table (world fr) →
        SiteConfig.site x = Site.id (Job.site (self fr)) →
        x = sc ∨ SiteConfig.id sc < SiteConfig.id x) →
  has_line_break (Site.name (Job.site (self fr))) = false →
  has_line_break (SiteConfig.admin_email sc) = false →
  has_line_break (Job.email (self fr)) = false →
  fst (expire render fr) = Return true
  ∧ mails (emitted fr (snd (expire render fr))) = [expiry_mail render fr sc]
  ∧ from_email (expiry_mail render fr sc) = SiteConfig.admin_email sc.
Proof.
  intros Hp He Hin Hsite Hmin Hname Hsender Hto.
  assert (lowest_pk (siteconfig_set (Job.site (self fr)) (world fr)) = Some sc)
    as Hsc.
  { apply lowest_pk_unique.
    - unfold siteconfig_set. by apply list_elem_of_filter.
    - unfold siteconfig_set. intros x [Hx Hxin]%list_elem_of_filter.
      by apply Hmin. }
  rewrite (expire_sends render fr t sc Hp He Hsc
             (expiry_mail_headers render fr sc Hname Hsender Hto)); simpl.
  by rewrite emitted_expired_world.
Qed.

Lemma expire_uses_oldest_config_witness :
  (mails (emitted (Board.call_on Sample.paid_job
                     [Board.foreign_config; Board.newer_config; Board.older_config])
            (snd (expire Sample.render
                    (Board.call_on Sample.paid_job
                       [Board.foreign_config; Board.newer_config;
                        Board.older_config])))))
  = [MkEmail "Your Example Jobs job has expired"
             "job_board/emails/expired.txt:Compiler engineer:expired"
             "owner@example.com" ["hr@acme.test"]].
Proof.
  refine (proj1 (proj2 (expire_uses_oldest_config Sample.render
                          (Board.call_on Sample.paid_job
                             [Board.foreign_config; Board.newer_config;
                              Board.older_config])
                          1500 Board.older_config eq_refl eq_refl _ eq_refl _
                          eq_refl eq_refl eq_refl))).
  - right; right; left.
  - intros x Hx Hsite.
    repeat (apply elem_of_cons in Hx as [->|Hx]);
      [discriminate Hsite|right; by vm_compute|by left|by apply elem_of_nil in Hx].
Defined.

(** X12.  What the two methods leave alone, returning or raising: the
    clock, the transport and the table of SiteConfigs; and [activate] hands
    the transport nothing. *)
Theorem lifecycle_world_frame (render : string → Job.t → string) (c : call)
    (fr : Frame) :
  let fr' := snd (invoke render c fr) in
  clock (world fr') = clock (world fr)
  ∧ smtp (world fr') = smtp (world fr)
  ∧ siteconfig_table (world fr') = siteconfig_table (world fr)
  ∧ mails (emitted fr (snd (activate fr))) = [].
Proof.
  simpl. split_and!.
  1-3: by destruct (invoke_outcome render c fr)
            as [->|[(_ & _ & ->)|(_ & _ & _ & evs & -> & _)]].
  destruct (invoke_outcome render Activate fr)
    as [Heq|[(_ & _ & Heq)|(? & _)]]; [| |done]; simpl in Heq; rewrite Heq.
  - by rewrite emitted_refl.
  - by rewrite (emitted_app fr _ [SaveJob (paid_self fr)]).
Qed.

(** X13.  A notification that failed is lost.  When [expire] has raised for
    want of a SiteConfig, the posting is expired all the same, so a later
    call returns [False] and hands the transport nothing, whatever the world
    has become by then (a SiteConfig added, say). *)
Theorem notification_lost_after_failure (render : string → Job.t → string)
    (fr : Frame) (t : Time) (later : World) :
  Job.paid_at (self fr) = Some t →
  Job.expired_at (self fr) = None →
  siteconfig_set (Job.site (self fr)) (world fr) = [] →
  let failed := snd (expire render fr) in
  let retry := MkFrame (self failed) later in
  fst (expire render fr) = Raise (AttributeError "NoneType" "admin_email")
  ∧ expire render retry = (Return false, retry)
  ∧ mails (emitted retry (snd (expire render retry))) = [].
Proof.
  intros Hp He Hnone; simpl.
  apply lowest_pk_None in Hnone.
  rewrite (expire_raises render fr t Hp He Hnone); simpl.
  rewrite expire_noop; simpl.
  - by rewrite emitted_refl.
  - right. destruct (expired_self_fields fr) as (_ & _ & ->). by eexists.
Qed.

Lemma notification_lost_after_failure_witness :
  fst (expire Sample.render
         (MkFrame (self (snd (expire Sample.render Sample.orphan_frame)))
            (snd (generate_site_config (site_added Sample.site)
                    (world (snd (expire Sample.render Sample.orphan_frame)))))))
    = Return false.
Proof.
  destruct (notification_lost_after_failure Sample.render Sample.orphan_frame 1500
              (snd (generate_site_config (site_added Sample.site)
                      (world (snd (expire Sample.render Sample.orphan_frame)))))
              eq_refl eq_refl eq_refl)
    as (_ & Hretry & _).
  by rewrite Hretry.
Defined.
